(** * nanoMIDIPlayer: the MIDI to QWERTY translator (Linux)

    A shallow embedding of [modules/midiHandler/midiToQWERTYLinux.py].

    The module keeps its session in process-wide globals ([pressedKeys],
    [heldKeys], [timerList], [sustainActive], ...); here they are the
    fields of one [State] record that every operation threads through.
    Python exceptions are explicit: an operation returns [Ok v] or
    [Raise e] together with the state it leaves behind (mutations made
    before a raise stay, as in Python).

    The keystroke functions [press]/[release] are chosen at import time
    among three implementations.  The translator ([simulateKey],
    [parseMidi], [midiLoop]) is embedded once, over any such pair; the
    pynput implementation (X11, [inputModule == "pynput"]), which
    [stopMidiInput] addresses directly through [pynputController], is
    embedded in full.

    Strings are byte strings, and the string primitives ([Py.lower],
    [Py.isupper], the length test of [Pynput.translateKey]) work byte by
    byte.  They agree with Python's on ASCII key labels, which is what the
    shipped key maps hold; a label with other characters is outside the
    embedding ([ascii_config] names the configurations inside it).

    Not modelled: logging other than the three failure diagnostics,
    wall-clock time, the firing of hold timers and the reader thread
    (only the sequential loop it runs). *)

From Stdlib Require Import ZArith Lia Bool Ascii String List DecimalString.
From stdpp Require Import base option list gmap sorting strings.
Import ListNotations.

Local Open Scope string_scope.
Local Open Scope Z_scope.

(** ** Python primitives *)

Module Py.

(** [str(n)] for an int. *)
Definition str (n : Z) : string := NilZero.string_of_int (Z.to_int n).

(** [int(s)] for a decimal numeral; [None] stands for [ValueError].
    Configuration keys are plain decimal numerals; Python's extra
    spellings (surrounding blanks, a leading plus, underscores) are not
    accepted here. *)
Definition int (s : string) : option Z :=
  option_map Z.of_int (NilZero.int_of_string s).

Definition is_ascii_upper (c : ascii) : bool :=
  let n := nat_of_ascii c in (65 <=? n)%nat && (n <=? 90)%nat.

Definition is_ascii_lower (c : ascii) : bool :=
  let n := nat_of_ascii c in (97 <=? n)%nat && (n <=? 122)%nat.

Definition lower_char (c : ascii) : ascii :=
  if is_ascii_upper c then ascii_of_nat (nat_of_ascii c + 32) else c.

(** [s.lower()], on ASCII: key labels are ASCII, other bytes are kept. *)
Fixpoint lower (s : string) : string :=
  match s with
  | EmptyString => EmptyString
  | String c s' => String (lower_char c) (lower s')
  end.

Fixpoint any_char (p : ascii -> bool) (s : string) : bool :=
  match s with
  | EmptyString => false
  | String c s' => p c || any_char p s'
  end.

(** [s.isupper()]: at least one cased character and no lowercase one,
    the cased characters being the ASCII letters. *)
Definition isupper (s : string) : bool :=
  any_char is_ascii_upper s && negb (any_char is_ascii_lower s).

(** [s.startswith(p)]. *)
Definition startswith (s p : string) : bool := String.prefix p s.

(** [s[n:]]. *)
Fixpoint drop (n : nat) (s : string) : string :=
  match n, s with
  | O, _ => s
  | S n', String _ s' => drop n' s'
  | S _, EmptyString => EmptyString
  end.

(** Truthiness of a string: [bool(s)]. *)
Definition truthy (s : string) : bool :=
  match s with EmptyString => false | _ => true end.

End Py.

(** ** Exceptions and the state-and-exception monad *)

Inductive exn : Type :=
| KeyError (key : string)
| ValueError (msg : string)
| IndexError
| LoopFuelExhausted.
(** [LoopFuelExhausted] is no Python exception: it marks a [while] loop
    whose fuel ran out in the model.  [findVelocityKey_loop_terminates]
    shows that it is never produced. *)

Inductive result (A : Type) : Type :=
| Ok (a : A)
| Raise (e : exn).
Arguments Ok {A} a.
Arguments Raise {A} e.

Definition is_IndexError (e : exn) : bool :=
  match e with IndexError => true | _ => false end.

(** ** The velocity classifier: [findVelocityKey] *)

Module Velocity.

(** The state of the [while] loop. *)
Record loop_state : Type := LoopState {
  minimum : Z;
  maximum : Z;
  index : Z
}.

(** One evaluation of the loop test and body. *)
Inductive loop_step : Type :=
| Continue (s : loop_state)
| Exit (index : Z)          (* the test [minimum <= maximum] failed *)
| Break (index : Z)         (* the [break] at a boundary index *)
| Fault.                    (* [thresholds[index]] out of range *)

Definition loop_body (thresholds : list Z) (velocity : Z) (s : loop_state)
  : loop_step :=
  if minimum s <=? maximum s then
    let index := (minimum s + maximum s) `div` 2 in
    if (index =? 0) || (index =? Z.of_nat (length thresholds) - 1) then
      Break index
    else
      match thresholds !! Z.to_nat index with
      | None => Fault
      | Some t =>
          if t <? velocity
          then Continue (LoopState (index + 1) (maximum s) index)
          else Continue (LoopState (minimum s) (index - 1) index)
      end
  else Exit (index s).

(** The loop, run for at most [fuel] evaluations of its test; [None]
    when the fuel runs out. *)
Fixpoint loop (fuel : nat) (thresholds : list Z) (velocity : Z)
    (s : loop_state) : option (result Z) :=
  match fuel with
  | O => None
  | S fuel' =>
      match loop_body thresholds velocity s with
      | Continue s' => loop fuel' thresholds velocity s'
      | Exit i | Break i => Some (Ok i)
      | Fault => Some (Raise IndexError)
      end
  end.

Definition initial (thresholds : list Z) : loop_state :=
  LoopState 0 (Z.of_nat (length thresholds) - 1) 0.

(** The index the loop leaves in [index]. *)
Definition findVelocityIndex (thresholds : list Z) (velocity : Z)
  : result Z :=
  match loop (S (length thresholds)) thresholds velocity
             (initial thresholds) with
  | Some r => r
  | None => Raise LoopFuelExhausted
  end.

(** [thresholds[index]] after the loop. *)
Definition findVelocityThreshold (thresholds : list Z) (velocity : Z)
  : result Z :=
  match findVelocityIndex thresholds velocity with
  | Ok i =>
      match thresholds !! Z.to_nat i with
      | Some t => Ok t
      | None => Raise IndexError
      end
  | Raise e => Raise e
  end.

(** [sorted(int(k) for k in velocityMap.keys())]. *)
Fixpoint ints (keys : list string) : result (list Z) :=
  match keys with
  | [] => Ok []
  | k :: keys' =>
      match Py.int k with
      | None => Raise (ValueError k)
      | Some n =>
          match ints keys' with
          | Ok ns => Ok (n :: ns)
          | Raise e => Raise e
          end
      end
  end.

Definition sorted_thresholds (velocityMap : gmap string string)
  : result (list Z) :=
  match ints (map fst (map_to_list velocityMap)) with
  | Ok ns => Ok (merge_sort Z.le ns)
  | Raise e => Raise e
  end.

Definition findVelocityKey (velocityMap : gmap string string)
    (velocity : Z) : result string :=
  match sorted_thresholds velocityMap with
  | Raise e => Raise e
  | Ok thresholds =>
      match findVelocityThreshold thresholds velocity with
      | Raise e => Raise e
      | Ok t =>
          match velocityMap !! Py.str t with
          | Some key => Ok key
          | None => Raise (KeyError (Py.str t))
          end
      end
  end.

End Velocity.

(** ** Keys, the session state and its monad *)

(** What [press]/[release] handle: a [str], or a member of pynput's [Key]
    enumeration, known by its [name] ([Key.shift] is [KKey "shift"]). *)
Inductive KeyObj : Type :=
| KStr (s : string)
| KKey (name : string).

(** [str(keyObj)]. *)
Definition str_of_key (k : KeyObj) : string :=
  match k with
  | KStr s => s
  | KKey name => "Key." ++ name
  end.

(** A call on [pynputController]. *)
Inductive BackendCall : Type :=
| CPress (k : KeyObj)
| CRelease (k : KeyObj).

Definition is_release (c : BackendCall) : bool :=
  match c with CRelease _ => true | CPress _ => false end.

Definition is_press (c : BackendCall) : bool :=
  match c with CPress _ => true | CRelease _ => false end.

(** The values stored in [heldKeys]: [keyObj], or the pair
    [(Key.shift, keyObj)]. *)
Inductive HeldVal : Type :=
| HKey (k : KeyObj)
| HShiftPair (k : KeyObj).

(** The three failure lines the module logs. *)
Inductive Diagnostic : Type :=
| OutOfRange (note : Z)
| NoMapping (note : Z)
| IndexErrorLogged.

(** A Python [dict] with [str] keys, in insertion order. *)
Module Dict.
Section Ops.
Context {V : Type}.

Definition mem (k : string) (d : list (string * V)) : bool :=
  existsb (fun kv => String.eqb k (fst kv)) d.

(** [d[k] = v]: an existing key keeps its place. *)
Fixpoint set (k : string) (v : V) (d : list (string * V))
  : list (string * V) :=
  match d with
  | [] => [(k, v)]
  | (k', v') :: d' =>
      if String.eqb k k' then (k, v) :: d' else (k', v') :: set k v d'
  end.

(** [del d[k]]. *)
Definition del (k : string) (d : list (string * V)) : list (string * V) :=
  List.filter (fun kv => negb (String.eqb k (fst kv))) d.

(** [list(d.keys())]. *)
Definition keys (d : list (string * V)) : list string := map fst d.
End Ops.
End Dict.

Record State : Type := mkState {
  pressedKeys : gset string;
  heldKeys : list (string * HeldVal);
  timerList : list string;      (* one armed timer per entry: the key its
                                   callback releases *)
  sustainActive : bool;
  stopEvent : bool;
  closeThread : bool;
  inPort : bool;                (* an open input handle *)
  controller : list BackendCall;  (* the calls made on pynputController,
                                     oldest first *)
  piano : list Z;               (* the notes the display shows as down *)
  diagnostics : list Diagnostic
}.

Definition initialState : State :=
  mkState ∅ [] [] false false false true [] [] [].

Definition with_pressedKeys (f : gset string -> gset string) (st : State) :=
  mkState (f (pressedKeys st)) (heldKeys st) (timerList st)
    (sustainActive st) (stopEvent st) (closeThread st) (inPort st)
    (controller st) (piano st) (diagnostics st).

Definition with_heldKeys
    (f : list (string * HeldVal) -> list (string * HeldVal)) (st : State) :=
  mkState (pressedKeys st) (f (heldKeys st)) (timerList st)
    (sustainActive st) (stopEvent st) (closeThread st) (inPort st)
    (controller st) (piano st) (diagnostics st).

Definition with_timerList (f : list string -> list string) (st : State) :=
  mkState (pressedKeys st) (heldKeys st) (f (timerList st))
    (sustainActive st) (stopEvent st) (closeThread st) (inPort st)
    (controller st) (piano st) (diagnostics st).

Definition with_sustainActive (b : bool) (st : State) :=
  mkState (pressedKeys st) (heldKeys st) (timerList st)
    b (stopEvent st) (closeThread st) (inPort st)
    (controller st) (piano st) (diagnostics st).

Definition with_stop_flags (stop close port : bool) (st : State) :=
  mkState (pressedKeys st) (heldKeys st) (timerList st)
    (sustainActive st) stop close port
    (controller st) (piano st) (diagnostics st).

Definition with_controller
    (f : list BackendCall -> list BackendCall) (st : State) :=
  mkState (pressedKeys st) (heldKeys st) (timerList st)
    (sustainActive st) (stopEvent st) (closeThread st) (inPort st)
    (f (controller st)) (piano st) (diagnostics st).

Definition with_piano (f : list Z -> list Z) (st : State) :=
  mkState (pressedKeys st) (heldKeys st) (timerList st)
    (sustainActive st) (stopEvent st) (closeThread st) (inPort st)
    (controller st) (f (piano st)) (diagnostics st).

Definition with_diagnostics
    (f : list Diagnostic -> list Diagnostic) (st : State) :=
  mkState (pressedKeys st) (heldKeys st) (timerList st)
    (sustainActive st) (stopEvent st) (closeThread st) (inPort st)
    (controller st) (piano st) (f (diagnostics st)).

Definition M (A : Type) : Type := State -> result A * State.

Definition ret {A : Type} (a : A) : M A := fun st => (Ok a, st).

Definition raise {A : Type} (e : exn) : M A := fun st => (Raise e, st).

Definition bind {A B : Type} (m : M A) (k : A -> M B) : M B :=
  fun st =>
    match m st with
    | (Ok a, st') => k a st'
    | (Raise e, st') => (Raise e, st')
    end.

Definition lift {A : Type} (r : result A) : M A := fun st => (r, st).

Definition modify (f : State -> State) : M unit := fun st => (Ok tt, f st).

Definition gets {A : Type} (f : State -> A) : M A := fun st => (Ok (f st), st).

(** [try: m  except <caught>: handler]. *)
Definition try_except {A : Type} (m : M A) (caught : exn -> bool)
    (handler : M A) : M A :=
  fun st =>
    match m st with
    | (Ok a, st') => (Ok a, st')
    | (Raise e, st') => if caught e then handler st' else (Raise e, st')
    end.

Notation "x <- m ;; k" := (bind m (fun x => k))
  (at level 100, m at level 60, right associativity).
Notation "m ;; k" := (bind m (fun _ => k))
  (at level 100, right associativity).

(** [log] of one of the failure lines. *)
Definition log (d : Diagnostic) : M unit :=
  modify (with_diagnostics (fun ds => (ds ++ [d])%list)).

(** ** Configuration ([configuration.configData["midiToQwerty"]]) *)

Record Config : Type := mkConfig {
  cfgVelocity : bool;                  (* ["velocity"] *)
  cfgSustain : bool;                   (* ["sustain"] *)
  sustainCutoff : Z;                   (* ["sustainCutoff"] *)
  cfgNoDoubles : bool;                 (* ["noDoubles"] *)
  customHoldLength : bool;             (* ["customHoldLength"]["enabled"] *)
  letterNoteMap : gmap string string;  (* ["pianoMap"]["61keyMap"] *)
  lowNotes : gmap string string;       (* ["pianoMap"]["88keyMap"]["lowNotes"] *)
  highNotes : gmap string string;      (* ["pianoMap"]["88keyMap"]["highNotes"] *)
  velocityMap : gmap string string     (* ["pianoMap"]["velocityMap"] *)
}.

(** ** [logKeys] *)

Inductive Action : Type := ActPress | ActRelease.

Definition logKeys (action : Action) (key : KeyObj) : M unit :=
  let keyName :=
    match key with
    | KKey name => if Py.truthy name then name else str_of_key key
    | KStr s => s
    end in
  modify (with_pressedKeys (fun pk =>
    match action with
    | ActPress => pk ∪ {[ keyName ]}
    | ActRelease =>
        if bool_decide (keyName ∈ pk) then pk ∖ {[ keyName ]} else pk
    end)).

(** ** The pynput implementation of [press] and [release] *)

Module Pynput.

Definition specialKeyMap (s : string) : option KeyObj :=
  if String.eqb s "shift" then Some (KKey "shift")
  else if String.eqb s "ctrl" then Some (KKey "ctrl")
  else if String.eqb s "alt" then Some (KKey "alt")
  else if String.eqb s "space" then Some (KKey "space")
  else None.

(** [{f"f{i}" for i in range(1, 13)} | {"tab", "backspace", "esc"}]. *)
Definition blockedKeys : gset string :=
  list_to_set (map (fun i => "f" ++ Py.str i) (seqZ 1 12))
  ∪ {[ "tab"; "backspace"; "esc" ]}.

(** The characters of [shiftChars], each as a one-character string. *)
Definition shiftChars : gset string :=
  list_to_set (map (fun c => String c EmptyString)
    [ "!"; "@"; "#"; "$"; "%"; "^"; "&"; "*"; "("; ")"; "_"; "+"; "{";
      "}"; ":"; "034"; "<"; ">"; "?"; "|"; "~" ]%char).

(** [len(keyLower) == 1] is a test on the number of bytes: it is Python's
    on an ASCII label. *)
Definition translateKey (key : KeyObj) : result KeyObj :=
  match key with
  | KStr s =>
      let keyLower := Py.lower s in
      match specialKeyMap keyLower with
      | Some k => Ok k
      | None =>
          if (String.length keyLower =? 1)%nat then Ok (KStr keyLower)
          else Raise (ValueError ("Unsupported key for pynput: " ++ s))
      end
  | KKey _ => Ok key
  end.

Definition isBlockedKey (keyObj : KeyObj) : bool :=
  match keyObj with
  | KStr s => bool_decide (Py.lower s ∈ blockedKeys)
  | KKey name =>
      if bool_decide (Py.lower name ∈ blockedKeys) then true
      else
        let s := Py.lower (str_of_key keyObj) in
        Py.startswith s "key.f"
        && existsb (fun i => Py.startswith s ("key.f" ++ Py.str i))
                   (seqZ 1 12)
  end.

(** [isinstance(keyObj, str) and keyObj in shiftChars]. *)
Definition needs_shift (keyObj : KeyObj) : bool :=
  match keyObj with
  | KStr s => bool_decide (s ∈ shiftChars)
  | KKey _ => false
  end.

Definition controller_press (k : KeyObj) : M unit :=
  modify (with_controller (fun cs => (cs ++ [CPress k])%list)).

Definition controller_release (k : KeyObj) : M unit :=
  modify (with_controller (fun cs => (cs ++ [CRelease k])%list)).

Definition press (key : KeyObj) : M unit :=
  keyObj <- lift (translateKey key) ;;
  if isBlockedKey keyObj then ret tt
  else if needs_shift keyObj then
    controller_press (KKey "shift") ;;
    controller_press keyObj ;;
    modify (with_heldKeys
              (Dict.set ("shift+" ++ str_of_key keyObj) (HShiftPair keyObj)))
  else
    controller_press keyObj ;;
    logKeys ActPress keyObj ;;
    modify (with_heldKeys (Dict.set (str_of_key keyObj) (HKey keyObj))).

Definition release (key : KeyObj) : M unit :=
  keyObj <- lift (translateKey key) ;;
  if isBlockedKey keyObj then ret tt
  else if needs_shift keyObj then
    controller_release keyObj ;;
    controller_release (KKey "shift") ;;
    let key_str := "shift+" ++ str_of_key keyObj in
    modify (with_heldKeys (fun d =>
      if Dict.mem key_str d then Dict.del key_str d else d))
  else
    controller_release keyObj ;;
    logKeys ActRelease keyObj ;;
    let key_str := str_of_key keyObj in
    modify (with_heldKeys (fun d =>
      if Dict.mem key_str d then Dict.del key_str d else d)).

End Pynput.

(** ** The piano display *)

(** Modelled from the spec: the display widget
    ([mainFunctions.getApp().frames["miditoqwerty"].piano]) is not part of
    this module.  It is a notification-only surface with [down(note,
    velocity)], [up(note)] and [currentNotes()]; it is kept as the list of
    notes shown as down, and its calls never raise. *)
Module PianoWidget.

Definition down (note velocity : Z) : M unit :=
  modify (with_piano (fun ns =>
    if existsb (Z.eqb note) ns then ns else (ns ++ [note])%list)).

Definition up (note : Z) : M unit :=
  modify (with_piano (List.filter (fun n => negb (note =? n)))).

Definition currentNotes : M (list Z) := gets piano.

End PianoWidget.

(** ** The note translator *)

Inductive MsgType : Type := NoteOn | NoteOff.

(** A message read from the MIDI input handle. *)
Inductive Message : Type :=
| control_change (control value : Z)
| note_on (note velocity : Z)
| note_off (note velocity : Z)
| other_message.

(** [re.search("[!@$%^*(]", key)]. *)
Definition has_symbol (key : string) : bool :=
  Py.any_char
    (fun c => existsb (Ascii.eqb c) [ "!"; "@"; "$"; "%"; "^"; "*"; "(" ]%char)
    key.

(** The lookup at the head of [simulateKey]: the value of [key] before
    the test [if not key]. *)
Definition resolveKey (cfg : Config) (note : Z) : option string :=
  match letterNoteMap cfg !! Py.str note with
  | Some k => Some k
  | None =>
      match lowNotes cfg !! Py.str note with
      | Some k => Some k
      | None =>
          match highNotes cfg !! Py.str note with
          | Some k => Some k
          | None => None
          end
      end
  end.

(** [letterNoteMap[str(n)]]. *)
Definition letterNote (cfg : Config) (n : Z) : M string :=
  match letterNoteMap cfg !! Py.str n with
  | Some k => ret k
  | None => raise (KeyError (Py.str n))
  end.

Definition findVelocityKey (cfg : Config) (velocity : Z) : M string :=
  lift (Velocity.findVelocityKey (velocityMap cfg) velocity).

Definition in_natural_register (note : Z) : bool :=
  (36 <=? note) && (note <=? 96).

Section Translator.

(** The module-level [press] and [release] in force. *)
Variables press release : KeyObj -> M unit.
Variable cfg : Config.

Definition pressAndMaybeRelease (key : string) : M unit :=
  press (KStr key) ;;
  if customHoldLength cfg
  then modify (with_timerList (fun ts => (ts ++ [key])%list))
  else ret tt.

Definition simulateKey (msgType : MsgType) (note velocity : Z) : M unit :=
  if negb ((-15 <=? note - 36) && (note - 36 <=? 88)) then
    log (OutOfRange note)
  else
    match resolveKey cfg note with
    | None => log (NoMapping note)
    | Some key =>
        if negb (Py.truthy key) then log (NoMapping note)
        else
          match msgType with
          | NoteOn =>
              PianoWidget.down note velocity ;;
              (if cfgVelocity cfg then
                 velocityKey <- findVelocityKey cfg velocity ;;
                 press (KStr "alt") ;;
                 press (KStr velocityKey) ;;
                 release (KStr velocityKey) ;;
                 release (KStr "alt")
               else ret tt) ;;
              if in_natural_register note then
                (if cfgNoDoubles cfg then
                   if has_symbol key then
                     below <- letterNote cfg (note - 1) ;;
                     release (KStr below)
                   else release (KStr (Py.lower key))
                 else ret tt) ;;
                if has_symbol key then
                  (* the log line formats letterNoteMap[str(note - 1)] *)
                  _ <- letterNote cfg (note - 1) ;;
                  press (KStr "shift") ;;
                  below <- letterNote cfg (note - 1) ;;
                  pressAndMaybeRelease below ;;
                  release (KStr "shift")
                else if Py.isupper key then
                  press (KStr "shift") ;;
                  pressAndMaybeRelease (Py.lower key) ;;
                  release (KStr "shift")
                else pressAndMaybeRelease key
              else
                release (KStr (Py.lower key)) ;;
                press (KStr "ctrl") ;;
                pressAndMaybeRelease (Py.lower key) ;;
                release (KStr "ctrl")
          | NoteOff =>
              PianoWidget.up note ;;
              if in_natural_register note then
                if has_symbol key then
                  below <- letterNote cfg (note - 1) ;;
                  release (KStr below)
                else release (KStr (Py.lower key))
              else release (KStr (Py.lower key))
          end
    end.

Definition parseMidi (message : Message) : M unit :=
  match message with
  | control_change _ value =>
      if cfgSustain cfg then
        active <- gets sustainActive ;;
        if negb active && (value >? sustainCutoff cfg) then
          modify (with_sustainActive true) ;;
          press (KStr "space")
        else if active && (value <? sustainCutoff cfg) then
          modify (with_sustainActive false) ;;
          release (KStr "space")
        else ret tt
      else ret tt
  | note_on note velocity =>
      try_except
        (if velocity =? 0 then simulateKey NoteOff note velocity
         else simulateKey NoteOn note velocity)
        is_IndexError
        (log IndexErrorLogged)
  | note_off note velocity =>
      try_except
        (if velocity =? 0 then simulateKey NoteOff note velocity
         else simulateKey NoteOff note velocity)
        is_IndexError
        (log IndexErrorLogged)
  | other_message => ret tt
  end.

(** The body of the reader thread, over the messages the port yields:
    [for msg in inPort: if stopEvent.is_set() or closeThread: break;
    parseMidi(msg)].  An exception that leaves [parseMidi] ends the
    loop, and with it the thread. *)
Fixpoint midiLoop (msgs : list Message) : M unit :=
  match msgs with
  | [] => ret tt
  | msg :: rest =>
      stop <- gets (fun st => stopEvent st || closeThread st) ;;
      if stop then ret tt
      else parseMidi msg ;; midiLoop rest
  end.

End Translator.

(** [simulateKey] from the branch on [msgType] on (the [if msgType ==
    "note_on"] and [elif msgType == "note_off"] blocks), as a function of
    the [key] that the resolution chain has bound. *)
Definition simulateKey_resolved (press release : KeyObj -> M unit)
    (cfg : Config) (msgType : MsgType) (note velocity : Z) (key : string)
  : M unit :=
  match msgType with
  | NoteOn =>
      PianoWidget.down note velocity ;;
      (if cfgVelocity cfg then
         velocityKey <- findVelocityKey cfg velocity ;;
         press (KStr "alt") ;;
         press (KStr velocityKey) ;;
         release (KStr velocityKey) ;;
         release (KStr "alt")
       else ret tt) ;;
      if in_natural_register note then
        (if cfgNoDoubles cfg then
           if has_symbol key then
             below <- letterNote cfg (note - 1) ;;
             release (KStr below)
           else release (KStr (Py.lower key))
         else ret tt) ;;
        if has_symbol key then
          _ <- letterNote cfg (note - 1) ;;
          press (KStr "shift") ;;
          below <- letterNote cfg (note - 1) ;;
          pressAndMaybeRelease press cfg below ;;
          release (KStr "shift")
        else if Py.isupper key then
          press (KStr "shift") ;;
          pressAndMaybeRelease press cfg (Py.lower key) ;;
          release (KStr "shift")
        else pressAndMaybeRelease press cfg key
      else
        release (KStr (Py.lower key)) ;;
        press (KStr "ctrl") ;;
        pressAndMaybeRelease press cfg (Py.lower key) ;;
        release (KStr "ctrl")
  | NoteOff =>
      PianoWidget.up note ;;
      if in_natural_register note then
        if has_symbol key then
          below <- letterNote cfg (note - 1) ;;
          release (KStr below)
        else release (KStr (Py.lower key))
      else release (KStr (Py.lower key))
  end.

(** ** [stopMidiInput], with the pynput implementation in force *)

(** One round of the sweep over [list(heldKeys.keys())]; the body sits in
    [try: ... except Exception: pass]. *)
Definition sweep_key (key : string) : M unit :=
  try_except
    (if Py.startswith key "shift+" then
       let char := Py.drop 6 key in
       Pynput.controller_release (KStr char) ;;
       Pynput.controller_release (KKey "shift")
     else Pynput.release (KStr key))
    (fun _ => true)
    (ret tt).

(** [for x in xs: body(x)]. *)
Fixpoint for_each {A : Type} (body : A -> M unit) (xs : list A) : M unit :=
  match xs with
  | [] => ret tt
  | x :: xs' => body x ;; for_each body xs'
  end.

(** [keyboardHandlers] is never filled by this module, so its unhook loop
    does nothing; joining the reader thread has no counterpart here. *)
Definition stopMidiInput : M unit :=
  modify (with_stop_flags true true false) ;;
  keys <- gets (fun st => Dict.keys (heldKeys st)) ;;
  for_each sweep_key keys ;;
  modify (with_heldKeys (fun _ => [])) ;;
  (* every timer is cancelled, then the list is cleared *)
  modify (with_timerList (fun _ => [])) ;;
  try_except
    (notes <- PianoWidget.currentNotes ;;
     for_each PianoWidget.up notes)
    (fun _ => true)
    (ret tt).

(** The effect of a run of messages on a fresh session under pynput. *)
Definition session (cfg : Config) (msgs : list Message) : result unit * State :=
  midiLoop Pynput.press Pynput.release cfg msgs initialState.

(** ** Predicates used by the statements below *)

(** Every threshold before position [i] is strictly below [v]. *)
Definition below_before (t : list Z) (v : Z) (i : nat) : Prop :=
  forall (j : nat) (tj : Z), (j < i)%nat -> t !! j = Some tj -> tj < v.

(** Every threshold after position [i] is at least [v]. *)
Definition at_least_after (t : list Z) (v : Z) (i : nat) : Prop :=
  forall (j : nat) (tj : Z), (i < j)%nat -> t !! j = Some tj -> v <= tj.

(** What the loop can leave in [index]: the first position, the least
    threshold that is at least [v], or the greatest threshold below [v]. *)
Definition bucket_choice (t : list Z) (v : Z) (i : nat) (ti : Z) : Prop :=
  i = 0%nat
  \/ (v <= ti /\ below_before t v i)
  \/ (ti < v /\ at_least_after t v i).

(** The property the specification gives for the classifier: the bucket's
    threshold does not exceed the velocity, unless the velocity is below
    the smallest threshold and the smallest bucket is returned. *)
Definition not_exceeding_or_clamped (t : list Z) (v ti : Z) : Prop :=
  ti <= v \/ (exists t0 : Z, t !! 0%nat = Some t0 /\ v < t0 /\ ti = t0).

(** The bisection invariant of the [while] loop of [findVelocityKey]. *)
Definition loop_inv (t : list Z) (v : Z) (s : Velocity.loop_state) : Prop :=
  0 <= Velocity.minimum s
  /\ 0 <= Velocity.maximum s < Z.of_nat (length t)
  /\ below_before t v (Z.to_nat (Velocity.minimum s))
  /\ at_least_after t v (Z.to_nat (Velocity.maximum s))
  /\ (Velocity.maximum s < Velocity.minimum s ->
      exists ti : Z,
        0 <= Velocity.index s
        /\ t !! Z.to_nat (Velocity.index s) = Some ti
        /\ bucket_choice t v (Z.to_nat (Velocity.index s)) ti).

(** The first of the given tables that maps [k] decides. *)
Fixpoint first_hit (tables : list (gmap string string)) (k : string)
  : option string :=
  match tables with
  | [] => None
  | table :: rest =>
      match table !! k with
      | Some v => Some v
      | None => first_hit rest k
      end
  end.

(** The key under which a press of [k] is entered in [heldKeys]. *)
Definition ledger_key (k : KeyObj) : string :=
  if Pynput.needs_shift k then "shift+" ++ str_of_key k else str_of_key k.

Definition held_val (k : KeyObj) : HeldVal :=
  if Pynput.needs_shift k then HShiftPair k else HKey k.

(** The controller calls of a press and of a release of [k]. *)
Definition press_calls (k : KeyObj) : list BackendCall :=
  if Pynput.needs_shift k then [CPress (KKey "shift"); CPress k]
  else [CPress k].

Definition release_calls (k : KeyObj) : list BackendCall :=
  if Pynput.needs_shift k then [CRelease k; CRelease (KKey "shift")]
  else [CRelease k].

(** The fields that [press] and [release] never touch. *)
Definition same_session (st st' : State) : Prop :=
  timerList st' = timerList st
  /\ sustainActive st' = sustainActive st
  /\ stopEvent st' = stopEvent st
  /\ closeThread st' = closeThread st
  /\ inPort st' = inPort st
  /\ piano st' = piano st
  /\ diagnostics st' = diagnostics st.

(** The keys of the ledger, as a set. *)
Definition ledger_keys (st : State) : gset string :=
  list_to_set (Dict.keys (heldKeys st)).

(** The ledger entries the shutdown sweep handles as written: a
    ["shift+"] composite, or one lower-case character that needs no
    shift. *)
Definition sweepable (key : string) : bool :=
  Py.startswith key "shift+"
  || ((String.length key =? 1)%nat
      && String.eqb (Py.lower key) key
      && negb (bool_decide (key ∈ Pynput.shiftChars))).

(** The controller calls of one round of the sweep on such an entry. *)
Definition sweep_calls (key : string) : list BackendCall :=
  if Py.startswith key "shift+"
  then [CRelease (KStr (Py.drop 6 key)); CRelease (KKey "shift")]
  else [CRelease (KStr key)].

(** [post m st Q]: running [m] from [st] ends in a result and a state
    that satisfy [Q]. *)
Definition post {A : Type} (m : M A) (st : State)
    (Q : result A -> State -> Prop) : Prop :=
  Q (fst (m st)) (snd (m st)).

(** The label of a key token. *)
Definition token_name (tok : KeyObj) : string :=
  match tok with KStr s => s | KKey name => name end.

(** Configurations used in the examples. *)
Module Examples.

(** A 61-key map with a plain key, a symbol without its lower
    neighbour, a character that pynput types with shift, and a label of
    two upper-case characters. *)
Definition keys : gmap string string :=
  list_to_map [("48", "t"); ("60", "c"); ("62", "#"); ("64", "F1");
               ("66", "T"); ("70", "!")].

Definition velocities : gmap string string :=
  list_to_map [("0", "1"); ("64", "2")].

Definition cfg : Config :=
  mkConfig false true 64 false false keys ∅ ∅ velocities.

(** Velocity modifiers on, with an empty velocity table. *)
Definition cfg_velocity_empty : Config :=
  mkConfig true true 64 false false keys ∅ ∅ ∅.

(** No-doubles and the hold-length override on. *)
Definition cfg_hold : Config :=
  mkConfig false true 64 true true keys ∅ ∅ velocities.

(** A symbol next to its lower neighbour, an upper-case key and a low
    extension note, with no-doubles and the hold-length override on. *)
Definition symbol_keys : gmap string string :=
  list_to_map [("60", "1"); ("61", "!"); ("62", "2"); ("64", "T")].

Definition cfg_symbols : Config :=
  mkConfig false true 64 true true symbol_keys
    (list_to_map [("30", "q")]) ∅ velocities.

(** Velocity modifiers on, over a table of four thresholds. *)
Definition cfg_velocity : Config :=
  mkConfig true true 64 false false symbol_keys ∅ ∅
    (list_to_map [("0", "1"); ("40", "2"); ("80", "3"); ("120", "4")]).

(** Three tables that all map note 40, each to another key, and each
    with entries of its own. *)
Definition cfg_overlap : Config :=
  mkConfig false true 64 false false
    (list_to_map [("40", "a"); ("60", "c")])
    (list_to_map [("40", "b"); ("30", "q")])
    (list_to_map [("40", "d"); ("30", "w"); ("100", "z")])
    velocities.

End Examples.

(** ** The keyboard-library implementation of [press] and [release] *)

(** The pair in force on X11 with [inputModule == "keyboard"]:
    [keyboard.press(key); logKeys("press", key)].  The calls on the
    keyboard library are recorded in the same trace as those on the pynput
    controller; they are taken not to raise.  [heldKeys] is not written. *)
Module KeyboardLib.

Definition press (key : KeyObj) : M unit :=
  modify (with_controller (fun cs => (cs ++ [CPress key])%list)) ;;
  logKeys ActPress key.

Definition release (key : KeyObj) : M unit :=
  modify (with_controller (fun cs => (cs ++ [CRelease key])%list)) ;;
  logKeys ActRelease key.

End KeyboardLib.

(** ** [setupYdotoolSocket] *)

(** The function reads and writes [os.environ] and asks the file system
    whether a path exists; the environment is a map from names to values,
    the file system a predicate on paths and [os.getuid()] a number. *)
Module Ydotool.

(** [socket_paths]. *)
Definition socket_paths (uid : Z) : list string :=
  [ "/run/user/" ++ Py.str uid ++ "/.ydotool_socket";
    "/run/user/1000/.ydotool_socket";
    "/tmp/.ydotool_socket" ].

(** The [for] loop over [socket_paths], which returns at the first path
    that exists. *)
Fixpoint search (path_exists : string -> bool) (paths : list string)
    (environ : gmap string string) : bool * gmap string string :=
  match paths with
  | [] => (false, environ)
  | socket_path :: rest =>
      if path_exists socket_path
      then (true, <[ "YDOTOOL_SOCKET" := socket_path ]> environ)
      else search path_exists rest environ
  end.

Definition setupYdotoolSocket (uid : Z) (path_exists : string -> bool)
    (environ : gmap string string) : bool * gmap string string :=
  match environ !! "YDOTOOL_SOCKET" with
  | Some value =>
      if Py.truthy value then (true, environ)
      else search path_exists (socket_paths uid) environ
  | None => search path_exists (socket_paths uid) environ
  end.

(** [isWayland]. *)
Definition isWayland (environ : gmap string string) : bool :=
  match environ !! "WAYLAND_DISPLAY" with
  | Some _ => true
  | None => false
  end.

End Ydotool.

(** ** More predicates *)

(** [m] keeps [P], whether it returns or raises. *)
Definition preserves {A : Type} (P : State -> Prop) (m : M A) : Prop :=
  forall st : State, P st -> P (snd (m st)).

(** The ledger keys of pynput's named keys that this module presses. *)
Definition named_entry (key : string) : bool :=
  existsb (String.eqb key) ["Key.shift"; "Key.ctrl"; "Key.alt"; "Key.space"].

(** The ledger keys a pynput session can hold. *)
Definition ledger_entry_ok (key : string) : bool :=
  named_entry key
  || (Py.startswith key "shift+"
      && bool_decide (Py.drop 6 key ∈ Pynput.shiftChars))
  || ((String.length key =? 1)%nat
      && String.eqb (Py.lower key) key
      && negb (bool_decide (key ∈ Pynput.shiftChars))).

(** A label of ASCII characters only.  Strings are byte strings here, and
    [Py.lower], [Py.isupper] and [String.length] read them byte by byte:
    on an ASCII label they agree with Python's [str.lower], [str.isupper]
    and [len]; on a label with other characters (a one-character label
    such as an accented letter is several bytes) they do not. *)
Definition ascii_label (s : string) : bool :=
  negb (Py.any_char (fun c => (128 <=? nat_of_ascii c)%nat) s).

Definition ascii_labels (table : gmap string string) : bool :=
  forallb ascii_label (map snd (map_to_list table)).

(** Every key label of the configuration is ASCII: the values of the
    61-key map, of the two extensions and of the velocity table. *)
Definition ascii_config (cfg : Config) : bool :=
  ascii_labels (letterNoteMap cfg)
  && ascii_labels (lowNotes cfg)
  && ascii_labels (highNotes cfg)
  && ascii_labels (velocityMap cfg).

(** Every ledger key has one of these shapes. *)
Definition ledger_well_formed (st : State) : Prop :=
  Forall (fun key => ledger_entry_ok key = true) (Dict.keys (heldKeys st)).

(** What the shutdown sweep sends to the controller for such a key. *)
Definition stop_calls (key : string) : list BackendCall :=
  if named_entry key then [] else sweep_calls key.

(** What a note_off may do to a state: append releases to the controller
    trace, shrink the ledger, and leave the timers alone. *)
Definition releases_only (st st' : State) : Prop :=
  exists calls : list BackendCall,
    controller st' = (controller st ++ calls)%list
    /\ Forall (fun c => is_release c = true) calls
    /\ ledger_keys st' ⊆ ledger_keys st
    /\ timerList st' = timerList st.

(** The session fields that no message handler writes. *)
Definition same_control (st st' : State) : Prop :=
  stopEvent st' = stopEvent st
  /\ closeThread st' = closeThread st
  /\ inPort st' = inPort st.

(** The label [simulateKey] hands to [pressAndMaybeRelease] on a note_on:
    the lower neighbour's key for a symbol, the lower-case form for an
    upper-case key or a note outside 36..96, the key itself otherwise.
    [None] when the lower neighbour has no entry. *)
Definition press_label (cfg : Config) (note : Z) (key : string)
  : option string :=
  if in_natural_register note then
    if has_symbol key then letterNoteMap cfg !! Py.str (note - 1)
    else if Py.isupper key then Some (Py.lower key)
    else Some key
  else Some (Py.lower key).

(** The controller calls of a note_on whose pressed label translates to
    [k], velocity modifiers aside: inside 36..96 an optional no-doubles
    release, then the press, wrapped in shift for a symbol or an
    upper-case key; outside, a release, then the press wrapped in ctrl. *)
Definition note_on_calls (cfg : Config) (note : Z) (key : string)
    (k : KeyObj) : list BackendCall :=
  if in_natural_register note then
    ((if cfgNoDoubles cfg then release_calls k else [])
     ++ (if has_symbol key || Py.isupper key
         then [CPress (KKey "shift")] ++ press_calls k
              ++ [CRelease (KKey "shift")]
         else press_calls k))%list
  else
    (release_calls k ++ [CPress (KKey "ctrl")] ++ press_calls k
     ++ [CRelease (KKey "ctrl")])%list.

(** The label [simulateKey] hands to [release] on a note_off. *)
Definition release_label (cfg : Config) (note : Z) (key : string)
  : option string :=
  if in_natural_register note && has_symbol key
  then letterNoteMap cfg !! Py.str (note - 1)
  else Some (Py.lower key).

(** A velocity-table key that is the decimal numeral of its own value. *)
Definition canonical_key (k : string) : bool :=
  match Py.int k with
  | Some n => String.eqb (Py.str n) k
  | None => false
  end.

(** The ledger key a note's press is entered under, when the note passes
    the range gate, is mapped, and its release label is a key pynput
    supports. *)
Definition note_ledger_key (cfg : Config) (note : Z) : option string :=
  if negb ((-15 <=? note - 36) && (note - 36 <=? 88)) then None
  else
    match resolveKey cfg note with
    | None => None
    | Some key =>
        if Py.truthy key then
          match release_label cfg note key with
          | None => None
          | Some tok =>
              match Pynput.translateKey (KStr tok) with
              | Ok k => Some (ledger_key k)
              | Raise _ => None
              end
          end
        else None
    end.

(** The ledger keys of a list of notes. *)
Definition chord_keys (cfg : Config) (notes : list Z) : gset string :=
  list_to_set (omap (note_ledger_key cfg) notes).

(** A controller trace that consists of presses and releases of space in
    strict alternation, read from a latch that is [active]; the result is
    the latch after the trace, [None] when the trace is anything else. *)
Fixpoint latch_alternates (active : bool) (calls : list BackendCall)
  : option bool :=
  match calls with
  | [] => Some active
  | CPress (KKey name) :: rest =>
      if String.eqb name "space" && negb active
      then latch_alternates true rest else None
  | CRelease (KKey name) :: rest =>
      if String.eqb name "space" && active
      then latch_alternates false rest else None
  | _ => None
  end.

(** ** The velocity classifier: results *)

Lemma sorted_lookup_le (t : list Z) :
  StronglySorted Z.le t ->
  forall (i j : nat) (ti tj : Z),
    (i <= j)%nat -> t !! i = Some ti -> t !! j = Some tj -> ti <= tj.
Proof.
  induction 1 as [|a l Hs IH Hall]; intros i j ti tj Hij Hi Hj.
  - discriminate.
  - destruct i as [|i]; destruct j as [|j]; simpl in *.
    + simplify_eq. lia.
    + injection Hi as <-.
      rewrite Forall_forall in Hall. apply Hall.
      eapply list_elem_of_lookup_2; eauto.
    + lia.
    + apply (IH i j); [lia|done|done].
Qed.

Lemma loop_inv_initial (t : list Z) (v : Z) :
  t <> [] -> loop_inv t v (Velocity.initial t).
Proof.
  intros Hne. unfold loop_inv, Velocity.initial; simpl.
  assert (0 < Z.of_nat (length t)) by (destruct t; simpl in *; [congruence|lia]).
  repeat split; try lia.
  - intros j tj Hj _. lia.
  - intros j tj Hj Hlk. apply lookup_lt_Some in Hlk. lia.
Qed.

(** One round of the loop keeps the invariant and shortens the interval;
    a round that leaves the loop leaves a position that [bucket_choice]
    describes. *)
Lemma loop_body_spec (t : list Z) (v : Z) (s : Velocity.loop_state) :
  StronglySorted Z.le t -> loop_inv t v s ->
  match Velocity.loop_body t v s with
  | Velocity.Continue s' =>
      loop_inv t v s'
      /\ Velocity.maximum s' - Velocity.minimum s'
         < Velocity.maximum s - Velocity.minimum s
           /\ Velocity.minimum s <= Velocity.maximum s
  | Velocity.Exit i | Velocity.Break i =>
      exists ti : Z,
        0 <= i /\ t !! Z.to_nat i = Some ti /\ bucket_choice t v (Z.to_nat i) ti
  | Velocity.Fault => False
  end.
Proof.
  intros Hs (Hmin & Hmax & Hlo & Hhi & Hidx).
  unfold Velocity.loop_body.
  destruct (Z.leb_spec (Velocity.minimum s) (Velocity.maximum s)) as [Hle|Hgt];
    [|apply Hidx; lia].
  set (i := (Velocity.minimum s + Velocity.maximum s) `div` 2).
  assert (Hi : Velocity.minimum s <= i <= Velocity.maximum s)
    by (subst i; Z.div_mod_to_equations; lia).
  destruct (lookup_lt_is_Some_2 t (Z.to_nat i)) as [ti Hti]; [lia|].
  destruct (Z.eqb_spec i 0) as [Hi0|Hi0]; simpl.
  { exists ti. split; [lia|]. split; [done|]. left. lia. }
  destruct (Z.eqb_spec i (Z.of_nat (length t) - 1)) as [Hil|Hil].
  { exists ti. split; [lia|]. split; [done|].
    assert (Hmi : Velocity.minimum s = i)
      by (subst i; Z.div_mod_to_equations; lia).
    destruct (Z.lt_ge_cases ti v) as [Hlt|Hge].
    - right; right. split; [done|].
      intros j tj Hj Hlk. apply lookup_lt_Some in Hlk. lia.
    - right; left. split; [done|]. by rewrite <- Hmi. }
  rewrite Hti.
  destruct (Z.ltb_spec ti v) as [Hlt|Hge]; simpl.
  - split; [|simpl; lia]. unfold loop_inv; simpl.
    split; [lia|]. split; [lia|]. split; [|split; [done|]].
    + intros j tj Hj Hlk.
      assert (tj <= ti) by (eapply (sorted_lookup_le t Hs j (Z.to_nat i)); eauto; lia).
      lia.
    + intros Hend. exists ti. split; [lia|]. split; [done|].
      right; right. split; [done|].
      assert (Hmi : Velocity.maximum s = i) by lia. by rewrite <- Hmi.
  - split; [|simpl; lia]. unfold loop_inv; simpl.
    split; [lia|]. split; [lia|]. split; [done|]. split.
    + intros j tj Hj Hlk.
      assert (ti <= tj) by (eapply (sorted_lookup_le t Hs (Z.to_nat i) j); eauto; lia).
      lia.
    + intros Hend. exists ti. split; [lia|]. split; [done|].
      right; left. split; [lia|].
      assert (Hmi : Velocity.minimum s = i) by lia. by rewrite <- Hmi.
Qed.

Lemma loop_spec (t : list Z) (v : Z) :
  StronglySorted Z.le t ->
  forall (fuel : nat) (s : Velocity.loop_state),
    loop_inv t v s ->
    (Z.to_nat (Velocity.maximum s - Velocity.minimum s + 1) < fuel)%nat ->
    exists (i : nat) (ti : Z),
      Velocity.loop fuel t v s = Some (Ok (Z.of_nat i))
      /\ t !! i = Some ti /\ bucket_choice t v i ti.
Proof.
  intros Hs fuel. induction fuel as [|fuel IH]; intros s Hinv Hfuel; [lia|].
  pose proof (loop_body_spec t v s Hs Hinv) as Hbody. simpl.
  destruct (Velocity.loop_body t v s) as [s'|i|i|].
  - destruct Hbody as (Hinv' & Hdec & Hle). apply IH; [done|lia].
  - destruct Hbody as (ti & Hi & Hlk & Hc).
    exists (Z.to_nat i), ti. rewrite Z2Nat.id by done. done.
  - destruct Hbody as (ti & Hi & Hlk & Hc).
    exists (Z.to_nat i), ti. rewrite Z2Nat.id by done. done.
  - done.
Qed.

(** Termination needs no order on the table: with [minimum] and [maximum]
    inside it, every round either leaves the loop or shortens the
    interval, and no access is out of range. *)
Lemma loop_terminates (t : list Z) (v : Z) :
  forall (fuel : nat) (s : Velocity.loop_state),
    0 <= Velocity.minimum s ->
    Velocity.maximum s < Z.of_nat (length t) ->
    0 <= Velocity.index s < Z.of_nat (length t) ->
    (Z.to_nat (Velocity.maximum s - Velocity.minimum s + 1) < fuel)%nat ->
    exists i : Z,
      0 <= i < Z.of_nat (length t)
      /\ Velocity.loop fuel t v s = Some (Ok i)
      /\ forall fuel' : nat, (fuel <= fuel')%nat ->
                             Velocity.loop fuel' t v s = Some (Ok i).
Proof.
  induction fuel as [|fuel IH]; intros s Hmin Hmax Hidx Hfuel; [lia|].
  assert (Hstep :
    match Velocity.loop_body t v s with
    | Velocity.Continue s' =>
        0 <= Velocity.minimum s'
        /\ Velocity.maximum s' < Z.of_nat (length t)
        /\ 0 <= Velocity.index s' < Z.of_nat (length t)
        /\ Velocity.maximum s' - Velocity.minimum s'
           < Velocity.maximum s - Velocity.minimum s
        /\ Velocity.minimum s <= Velocity.maximum s
    | Velocity.Fault => False
    | Velocity.Exit i | Velocity.Break i => 0 <= i < Z.of_nat (length t)
    end).
  { unfold Velocity.loop_body.
    destruct (Z.leb_spec (Velocity.minimum s) (Velocity.maximum s)); [|done].
    set (i := (Velocity.minimum s + Velocity.maximum s) `div` 2).
    assert (Velocity.minimum s <= i <= Velocity.maximum s)
      by (subst i; Z.div_mod_to_equations; lia).
    destruct (_ || _); [lia|].
    destruct (lookup_lt_is_Some_2 t (Z.to_nat i)) as [ti ->]; [lia|].
    destruct (ti <? v); simpl; lia. }
  simpl. destruct (Velocity.loop_body t v s) as [s'|i|i|] eqn:Hbody.
  - destruct Hstep as (? & ? & ? & ? & ?).
    destruct (IH s') as (i & Hi & Hrun & Hmore); [done|done|done|lia|].
    exists i. split; [done|]. split; [done|].
    intros [|fuel'] Hle; [lia|]. simpl. rewrite Hbody. apply Hmore. lia.
  - exists i. split; [done|]. split; [done|].
    intros [|fuel'] Hle; [lia|]. simpl. by rewrite Hbody.
  - exists i. split; [done|]. split; [done|].
    intros [|fuel'] Hle; [lia|]. simpl. by rewrite Hbody.
  - done.
Qed.

Lemma Zle_transitive : Transitive Z.le.
Proof. intros x y z; lia. Qed.

(** [findVelocityKey] reads the velocity table and the velocity only, and
    changes nothing. *)
Lemma findVelocityKey_pure (cfg : Config) (velocity : Z) (st : State) :
  findVelocityKey cfg velocity st
  = (Velocity.findVelocityKey (velocityMap cfg) velocity, st).
Proof. reflexivity. Qed.

(** C3, as stated, fails: on the sorted table 0, 10, 20, 30, 40 and
    velocity 35 (which is not below the smallest threshold) the bucket
    returned is 40, above the velocity; the closest threshold not
    exceeding 35 is 30. *)
Lemma findVelocityKey_exceeds_velocity :
  let thresholds := [0; 10; 20; 30; 40] in
  let vmap : gmap string string :=
    list_to_map [("0", "1"); ("10", "2"); ("20", "3"); ("30", "4"); ("40", "5")] in
  Velocity.sorted_thresholds vmap = Ok thresholds
  /\ Sorted Z.le thresholds
  /\ 0 <= 35 <= 127
  /\ Velocity.findVelocityThreshold thresholds 35 = Ok 40
  /\ Velocity.findVelocityKey vmap 35 = Ok "5"
  /\ ~ not_exceeding_or_clamped thresholds 35 40.
Proof.
  cbv zeta. split; [by vm_compute|]. split.
  { repeat (constructor; try lia). }
  split; [lia|]. split; [by vm_compute|]. split; [by vm_compute|].
  intros [Hle | (t0 & Ht0 & Hlt & _)]; [lia|].
  simpl in Ht0. injection Ht0 as <-. lia.
Qed.

(** C3 (amended): on every non-empty ascending table and every velocity,
    [findVelocityKey] is a function of the table and the velocity alone
    and returns a bucket of the table.  That bucket is the smallest one
    whenever the velocity is at or below the smallest threshold;
    otherwise it is the first bucket, the least threshold that is at least
    the velocity, or the greatest threshold below the velocity, so its
    threshold can exceed the velocity. *)
Theorem findVelocityKey_bucket (thresholds : list Z) (velocity : Z) :
  thresholds <> [] ->
  Sorted Z.le thresholds ->
  exists (i : nat) (ti : Z),
    Velocity.findVelocityIndex thresholds velocity = Ok (Z.of_nat i)
    /\ thresholds !! i = Some ti
    /\ Velocity.findVelocityThreshold thresholds velocity = Ok ti
    /\ bucket_choice thresholds velocity i ti
    /\ (forall t0 : Z,
          thresholds !! 0%nat = Some t0 -> velocity <= t0 -> i = 0%nat)
    /\ (forall vmap : gmap string string,
          Velocity.sorted_thresholds vmap = Ok thresholds ->
          Velocity.findVelocityKey vmap velocity
          = match vmap !! Py.str ti with
            | Some key => Ok key
            | None => Raise (KeyError (Py.str ti))
            end)
    /\ (forall (cfg : Config) (st : State),
          findVelocityKey cfg velocity st
          = (Velocity.findVelocityKey (velocityMap cfg) velocity, st)).
Proof.
  intros Hne Hsorted.
  assert (Hs : StronglySorted Z.le thresholds)
    by (apply (@Sorted_StronglySorted _ Z.le Zle_transitive); done).
  destruct (loop_spec thresholds velocity Hs (S (length thresholds))
              (Velocity.initial thresholds)) as (i & ti & Hrun & Hlk & Hc).
  { by apply loop_inv_initial. }
  { unfold Velocity.initial; simpl. lia. }
  assert (Hidx : Velocity.findVelocityIndex thresholds velocity
                 = Ok (Z.of_nat i))
    by (unfold Velocity.findVelocityIndex; by rewrite Hrun).
  assert (Hthr : Velocity.findVelocityThreshold thresholds velocity = Ok ti)
    by (unfold Velocity.findVelocityThreshold;
        by rewrite Hidx, Nat2Z.id, Hlk).
  exists i, ti. repeat split; try done.
  - intros t0 Ht0 Hv.
    destruct Hc as [H0 | [[Hge Hlow] | [Hlt _]]]; [done| |].
    + destruct i as [|i]; [done|].
      specialize (Hlow 0%nat t0 ltac:(lia) Ht0). lia.
    + assert (t0 <= ti)
        by (apply (sorted_lookup_le thresholds Hs 0 i); [lia|done|done]).
      lia.
  - intros vmap Hvm. unfold Velocity.findVelocityKey.
    by rewrite Hvm, Hthr.
Qed.

Lemma findVelocityKey_bucket_witness :
  exists (i : nat) (ti : Z),
    Velocity.findVelocityIndex [0; 10; 20; 30; 40] 25 = Ok (Z.of_nat i)
    /\ [0; 10; 20; 30; 40] !! i = Some ti
    /\ Velocity.findVelocityThreshold [0; 10; 20; 30; 40] 25 = Ok ti
    /\ bucket_choice [0; 10; 20; 30; 40] 25 i ti
    /\ (forall t0 : Z,
          [0; 10; 20; 30; 40] !! 0%nat = Some t0 -> 25 <= t0 -> i = 0%nat)
    /\ (forall vmap : gmap string string,
          Velocity.sorted_thresholds vmap = Ok [0; 10; 20; 30; 40] ->
          Velocity.findVelocityKey vmap 25
          = match vmap !! Py.str ti with
            | Some key => Ok key
            | None => Raise (KeyError (Py.str ti))
            end)
    /\ (forall (cfg : Config) (st : State),
          findVelocityKey cfg 25 st
          = (Velocity.findVelocityKey (velocityMap cfg) 25, st)).
Proof.
  apply (findVelocityKey_bucket [0; 10; 20; 30; 40] 25).
  - discriminate.
  - repeat (constructor; try lia).
Defined.

(** C9: on every non-empty table and every velocity the [while] loop of
    [findVelocityKey] ends: within one evaluation of its test per table
    entry plus one it leaves an index inside the table, whatever fuel
    beyond that is given, so [findVelocityIndex] returns that index and
    never runs out of fuel.  On tables of one or two entries the very
    first round leaves through the [break] at a boundary index. *)
Theorem findVelocityKey_loop_terminates (thresholds : list Z) (velocity : Z) :
  thresholds <> [] ->
  (exists i : Z,
     0 <= i < Z.of_nat (length thresholds)
     /\ (forall fuel : nat,
           (length thresholds < fuel)%nat ->
           Velocity.loop fuel thresholds velocity (Velocity.initial thresholds)
           = Some (Ok i))
     /\ Velocity.findVelocityIndex thresholds velocity = Ok i)
  /\ ((length thresholds <= 2)%nat ->
      Velocity.loop_body thresholds velocity (Velocity.initial thresholds)
      = Velocity.Break 0).
Proof.
  intros Hne.
  assert (Hlen : 0 < Z.of_nat (length thresholds))
    by (destruct thresholds; simpl in *; [congruence|lia]).
  split.
  - destruct (loop_terminates thresholds velocity (S (length thresholds))
                (Velocity.initial thresholds)) as (i & Hi & Hrun & Hmore).
    { simpl; lia. }
    { simpl; lia. }
    { simpl; lia. }
    { simpl; lia. }
    exists i. split; [done|]. split.
    + intros fuel Hfuel. apply Hmore. lia.
    + unfold Velocity.findVelocityIndex. by rewrite Hrun.
  - intros Hshort.
    destruct thresholds as [|a [|b [|c rest]]]; simpl in *;
      [congruence|reflexivity|reflexivity|lia].
Qed.

Lemma findVelocityKey_loop_terminates_witness :
  (exists i : Z,
     0 <= i < Z.of_nat (length [0; 64])
     /\ (forall fuel : nat,
           (length [0; 64] < fuel)%nat ->
           Velocity.loop fuel [0; 64] 100 (Velocity.initial [0; 64])
           = Some (Ok i))
     /\ Velocity.findVelocityIndex [0; 64] 100 = Ok i)
  /\ ((length [0; 64] <= 2)%nat ->
      Velocity.loop_body [0; 64] 100 (Velocity.initial [0; 64])
      = Velocity.Break 0).
Proof.
  apply (findVelocityKey_loop_terminates [0; 64] 100). discriminate.
Defined.

(** ** The pynput implementation: results *)

Lemma lower_char_idem (c : ascii) :
  Py.lower_char (Py.lower_char c) = Py.lower_char c.
Proof.
  unfold Py.lower_char.
  destruct (Py.is_ascii_upper c) eqn:Hu; [|by rewrite Hu].
  assert (Hn : (65 <= nat_of_ascii c <= 90)%nat).
  { unfold Py.is_ascii_upper in Hu. apply andb_prop in Hu as [H1 H2].
    apply Nat.leb_le in H1, H2. lia. }
  assert (Hl : Py.is_ascii_upper (ascii_of_nat (nat_of_ascii c + 32)) = false).
  { unfold Py.is_ascii_upper. rewrite nat_ascii_embedding by lia.
    apply andb_false_iff. right. apply Nat.leb_gt. lia. }
  by rewrite Hl.
Qed.

Lemma lower_idem (s : string) : Py.lower (Py.lower s) = Py.lower s.
Proof.
  induction s as [|c s IH]; simpl; [done|].
  by rewrite lower_char_idem, IH.
Qed.

Lemma blockedKeys_elements (s : string) :
  s ∈ Pynput.blockedKeys ->
  In s ["f1"; "f2"; "f3"; "f4"; "f5"; "f6"; "f7"; "f8"; "f9"; "f10"; "f11";
        "f12"; "tab"; "backspace"; "esc"].
Proof.
  unfold Pynput.blockedKeys.
  rewrite elem_of_union, elem_of_list_to_set, list_elem_of_In.
  intros Hin.
  change (In s (map (fun i => ("f" ++ Py.str i)%string) (seqZ 1 12)
                ++ ["tab"; "backspace"; "esc"])%list).
  apply in_or_app. destruct Hin as [Hf | Hn]; [by left|right].
  set_unfold. simpl. destruct Hn as [[-> | ->] | ->]; tauto.
Qed.

Lemma blockedKeys_long (s : string) :
  s ∈ Pynput.blockedKeys -> (2 <= String.length s)%nat.
Proof.
  intros Hin. apply blockedKeys_elements in Hin. simpl in Hin.
  repeat (destruct Hin as [<- | Hin]; [simpl; lia|]). done.
Qed.

Lemma specialKeyMap_Some (s : string) (k : KeyObj) :
  Pynput.specialKeyMap s = Some k ->
  k = KKey "shift" \/ k = KKey "ctrl" \/ k = KKey "alt" \/ k = KKey "space".
Proof.
  unfold Pynput.specialKeyMap.
  repeat (destruct (String.eqb s _); [intros [= <-]; tauto|]).
  discriminate.
Qed.

(** What [translateKey] returns for a [str] is never blocked. *)
Lemma translateKey_str_unblocked (s : string) (k : KeyObj) :
  Pynput.translateKey (KStr s) = Ok k -> Pynput.isBlockedKey k = false.
Proof.
  unfold Pynput.translateKey.
  destruct (Pynput.specialKeyMap (Py.lower s)) as [k'|] eqn:Hsp.
  - intros [= <-]. apply specialKeyMap_Some in Hsp.
    destruct Hsp as [-> | [-> | [-> | ->]]]; by vm_compute.
  - destruct (Nat.eqb_spec (String.length (Py.lower s)) 1) as [Hlen|];
      [|discriminate].
    intros [= <-]. simpl. apply bool_decide_eq_false. intros Hin.
    apply blockedKeys_long in Hin. rewrite lower_idem in Hin. lia.
Qed.

Lemma translateKey_raise (key : KeyObj) (e : exn) :
  Pynput.translateKey key = Raise e -> is_IndexError e = false.
Proof.
  destruct key as [s|name]; simpl; [|discriminate].
  destruct (Pynput.specialKeyMap _); [discriminate|].
  destruct (_ =? _)%nat; [discriminate|]. by intros [= <-].
Qed.

(** [translateKey] lower-cases before anything else. *)
Lemma translateKey_lower (s : string) (k : KeyObj) :
  Pynput.translateKey (KStr s) = Ok k ->
  Pynput.translateKey (KStr (Py.lower s)) = Ok k.
Proof.
  unfold Pynput.translateKey. rewrite lower_idem.
  destruct (Pynput.specialKeyMap _); [done|].
  destruct (_ =? _)%nat; [done|discriminate].
Qed.

Lemma del_if_mem {V : Type} (k : string) (d : list (string * V)) :
  (if Dict.mem k d then Dict.del k d else d) = Dict.del k d.
Proof.
  destruct (Dict.mem k d) eqn:Hm; [done|].
  unfold Dict.mem, Dict.del in *.
  induction d as [|[k' v] d IH]; simpl in *; [done|].
  apply orb_false_iff in Hm as [Hk Hd]. rewrite Hk. simpl.
  by rewrite <- IH.
Qed.

Lemma press_str_ok (s : string) (k : KeyObj) (st : State) :
  Pynput.translateKey (KStr s) = Ok k ->
  exists st' : State,
    Pynput.press (KStr s) st = (Ok tt, st')
    /\ heldKeys st' = Dict.set (ledger_key k) (held_val k) (heldKeys st)
    /\ controller st' = (controller st ++ press_calls k)%list
    /\ same_session st st'.
Proof.
  intros Ht. pose proof (translateKey_str_unblocked s k Ht) as Hb.
  unfold Pynput.press, bind, lift. rewrite Ht, Hb.
  unfold ledger_key, held_val, press_calls.
  destruct (Pynput.needs_shift k); simpl; eexists; split; try reflexivity;
    simpl; rewrite <- ?app_assoc; repeat split; reflexivity.
Qed.

Lemma press_str_raise (s : string) (e : exn) (st : State) :
  Pynput.translateKey (KStr s) = Raise e ->
  Pynput.press (KStr s) st = (Raise e, st).
Proof. intros Ht. unfold Pynput.press, bind, lift. by rewrite Ht. Qed.

Lemma release_str_ok (s : string) (k : KeyObj) (st : State) :
  Pynput.translateKey (KStr s) = Ok k ->
  exists st' : State,
    Pynput.release (KStr s) st = (Ok tt, st')
    /\ heldKeys st' = Dict.del (ledger_key k) (heldKeys st)
    /\ controller st' = (controller st ++ release_calls k)%list
    /\ same_session st st'.
Proof.
  intros Ht. pose proof (translateKey_str_unblocked s k Ht) as Hb.
  unfold Pynput.release, bind, lift. rewrite Ht, Hb.
  unfold ledger_key, held_val, release_calls.
  destruct (Pynput.needs_shift k); simpl; eexists; split; try reflexivity;
    simpl; rewrite <- ?app_assoc, ?del_if_mem; repeat split; reflexivity.
Qed.

Lemma release_str_raise (s : string) (e : exn) (st : State) :
  Pynput.translateKey (KStr s) = Raise e ->
  Pynput.release (KStr s) st = (Raise e, st).
Proof. intros Ht. unfold Pynput.release, bind, lift. by rewrite Ht. Qed.

(** ** The note translator: results that hold under any [press]/[release] *)

Section TranslatorFacts.

Variables press release : KeyObj -> M unit.
Variable cfg : Config.

(** Outside the range gate [simulateKey] logs and returns. *)
Lemma simulateKey_out_of_range (msgType : MsgType) (note velocity : Z)
    (st : State) :
  ~ (-15 <= note - 36 <= 88) ->
  simulateKey press release cfg msgType note velocity st
  = (Ok tt, with_diagnostics (fun ds => (ds ++ [OutOfRange note])%list) st).
Proof.
  intros Hout. unfold simulateKey.
  destruct (Z.leb_spec (-15) (note - 36));
    destruct (Z.leb_spec (note - 36) 88); simpl; try reflexivity.
  lia.
Qed.

(** With no mapping [simulateKey] logs and returns. *)
Lemma simulateKey_unmapped (msgType : MsgType) (note velocity : Z)
    (st : State) :
  -15 <= note - 36 <= 88 ->
  resolveKey cfg note = None ->
  simulateKey press release cfg msgType note velocity st
  = (Ok tt, with_diagnostics (fun ds => (ds ++ [NoMapping note])%list) st).
Proof.
  intros Hin Hnone. unfold simulateKey. rewrite Hnone.
  destruct (Z.leb_spec (-15) (note - 36));
    destruct (Z.leb_spec (note - 36) 88); simpl; try reflexivity; lia.
Qed.

Lemma resolveKey_first_hit (note : Z) :
  resolveKey cfg note
  = first_hit [letterNoteMap cfg; lowNotes cfg; highNotes cfg]
              (Py.str note).
Proof.
  unfold resolveKey; simpl.
  destruct (letterNoteMap cfg !! Py.str note); [done|].
  destruct (lowNotes cfg !! Py.str note); [done|].
  by destruct (highNotes cfg !! Py.str note).
Qed.

End TranslatorFacts.

(** C5: a note event whose note minus 36 lies outside -15..88 is dropped
    at the range gate: [parseMidi] returns normally, the only trace is the
    out-of-range diagnostic, no [press] or [release] is reached (the
    controller sees no call) and the ledger, the pressed-keys set, the
    timers, the sustain latch and the display are as before.  This holds
    for note_on and note_off, under any [press]/[release]. *)
Theorem range_gate_drops_event
    (press release : KeyObj -> M unit) (cfg : Config)
    (note velocity : Z) (st : State) :
  ~ (-15 <= note - 36 <= 88) ->
  exists st' : State,
    parseMidi press release cfg (note_on note velocity) st = (Ok tt, st')
    /\ parseMidi press release cfg (note_off note velocity) st = (Ok tt, st')
    /\ controller st' = controller st
    /\ heldKeys st' = heldKeys st
    /\ pressedKeys st' = pressedKeys st
    /\ timerList st' = timerList st
    /\ sustainActive st' = sustainActive st
    /\ piano st' = piano st
    /\ diagnostics st' = (diagnostics st ++ [OutOfRange note])%list
    /\ st' = with_diagnostics (fun ds => (ds ++ [OutOfRange note])%list) st.
Proof.
  intros Hout.
  exists (with_diagnostics (fun ds => (ds ++ [OutOfRange note])%list) st).
  split; [|split; [|by repeat split]];
    unfold parseMidi, try_except; destruct (velocity =? 0);
    by rewrite simulateKey_out_of_range.
Qed.

Lemma range_gate_drops_event_witness :
  exists st' : State,
    parseMidi Pynput.press Pynput.release Examples.cfg (note_on 10 100)
      initialState = (Ok tt, st')
    /\ parseMidi Pynput.press Pynput.release Examples.cfg (note_off 10 100)
         initialState = (Ok tt, st')
    /\ controller st' = controller initialState
    /\ heldKeys st' = heldKeys initialState
    /\ pressedKeys st' = pressedKeys initialState
    /\ timerList st' = timerList initialState
    /\ sustainActive st' = sustainActive initialState
    /\ piano st' = piano initialState
    /\ diagnostics st' = (diagnostics initialState ++ [OutOfRange 10])%list
    /\ st' = with_diagnostics (fun ds => (ds ++ [OutOfRange 10])%list)
               initialState.
Proof.
  apply (range_gate_drops_event Pynput.press Pynput.release Examples.cfg
           10 100 initialState).
  lia.
Defined.

(** C6: for a note inside the range gate the key the handler acts on is
    the first hit among the 61-key map, the low extension and the high
    extension, in that order.  With a hit, [simulateKey] is the note_on or
    note_off handling of that very key (or, for an empty key, the
    no-mapping diagnostic); in particular a note_off hands [release] the
    label derived from the first hit: its lower-case form, or, for a
    symbol inside 36..96, the key of the note below (a [KeyError] when
    that note has no entry).  When no table maps the note the event is
    dropped: [simulateKey] returns normally, logs the no-mapping
    diagnostic, and calls neither [press] nor [release], so the state is
    otherwise as before.  This holds under any [press]/[release]. *)
Theorem key_resolution_order
    (press release : KeyObj -> M unit) (cfg : Config)
    (msgType : MsgType) (note velocity : Z) (st : State) :
  -15 <= note - 36 <= 88 ->
  match first_hit [letterNoteMap cfg; lowNotes cfg; highNotes cfg]
                  (Py.str note) with
  | Some key =>
      resolveKey cfg note = Some key
      /\ simulateKey press release cfg msgType note velocity st
         = (if Py.truthy key
            then simulateKey_resolved press release cfg msgType note
                   velocity key st
            else (Ok tt,
                  with_diagnostics
                    (fun ds => (ds ++ [NoMapping note])%list) st))
      /\ (if Py.truthy key
          then simulateKey press release cfg NoteOff note velocity st
               = match release_label cfg note key with
                 | Some label =>
                     release (KStr label) (snd (PianoWidget.up note st))
                 | None =>
                     (Raise (KeyError (Py.str (note - 1))),
                      snd (PianoWidget.up note st))
                 end
          else True)
  | None =>
      resolveKey cfg note = None
      /\ simulateKey press release cfg msgType note velocity st
         = (Ok tt,
            with_diagnostics (fun ds => (ds ++ [NoMapping note])%list) st)
      /\ controller
           (snd (simulateKey press release cfg msgType note velocity st))
         = controller st
      /\ heldKeys
           (snd (simulateKey press release cfg msgType note velocity st))
         = heldKeys st
  end.
Proof.
  intros Hin. rewrite <- resolveKey_first_hit.
  assert (Hgate : negb ((-15 <=? note - 36) && (note - 36 <=? 88)) = false).
  { destruct (Z.leb_spec (-15) (note - 36));
      destruct (Z.leb_spec (note - 36) 88); simpl; try reflexivity; lia. }
  destruct (resolveKey cfg note) as [key|] eqn:Hres.
  - split; [done|]. split.
    + unfold simulateKey, simulateKey_resolved. rewrite Hgate, Hres.
      by destruct (Py.truthy key), msgType.
    + destruct (Py.truthy key) eqn:Htruthy; [|done].
      unfold simulateKey, release_label. rewrite Hgate, Hres, Htruthy.
      cbn [negb]. unfold bind, seq, PianoWidget.up, modify, letterNote.
      cbn [fst snd].
      destruct (in_natural_register note); [|done].
      destruct (has_symbol key); [|done].
      cbn [andb].
      by destruct (letterNoteMap cfg !! Py.str (note - 1)).
  - split; [done|].
    by rewrite (simulateKey_unmapped press release cfg msgType note velocity st
                  Hin Hres).
Qed.

Lemma key_resolution_order_witness :
  match first_hit [letterNoteMap Examples.cfg_overlap;
                   lowNotes Examples.cfg_overlap;
                   highNotes Examples.cfg_overlap] (Py.str 40) with
  | Some key =>
      resolveKey Examples.cfg_overlap 40 = Some key
      /\ simulateKey Pynput.press Pynput.release Examples.cfg_overlap NoteOff
           40 0 initialState
         = (if Py.truthy key
            then simulateKey_resolved Pynput.press Pynput.release
                   Examples.cfg_overlap NoteOff 40 0 key initialState
            else (Ok tt,
                  with_diagnostics
                    (fun ds => (ds ++ [NoMapping 40])%list) initialState))
      /\ (if Py.truthy key
          then simulateKey Pynput.press Pynput.release Examples.cfg_overlap
                 NoteOff 40 0 initialState
               = match release_label Examples.cfg_overlap 40 key with
                 | Some label =>
                     Pynput.release (KStr label)
                       (snd (PianoWidget.up 40 initialState))
                 | None =>
                     (Raise (KeyError (Py.str (40 - 1))),
                      snd (PianoWidget.up 40 initialState))
                 end
          else True)
  | None =>
      resolveKey Examples.cfg_overlap 40 = None
      /\ simulateKey Pynput.press Pynput.release Examples.cfg_overlap NoteOff
           40 0 initialState
         = (Ok tt,
            with_diagnostics (fun ds => (ds ++ [NoMapping 40])%list)
              initialState)
      /\ controller
           (snd (simulateKey Pynput.press Pynput.release Examples.cfg_overlap
                   NoteOff 40 0 initialState))
         = controller initialState
      /\ heldKeys
           (snd (simulateKey Pynput.press Pynput.release Examples.cfg_overlap
                   NoteOff 40 0 initialState))
         = heldKeys initialState
  end.
Proof.
  apply (key_resolution_order Pynput.press Pynput.release
           Examples.cfg_overlap NoteOff 40 0 initialState).
  lia.
Defined.

(** The order at work: the 61-key map wins over both extensions, the low
    extension over the high one, and the high extension answers alone. *)
Lemma resolution_order_examples :
  controller (snd (simulateKey Pynput.press Pynput.release
                     Examples.cfg_overlap NoteOff 40 0 initialState))
  = [CRelease (KStr "a")]
  /\ controller (snd (simulateKey Pynput.press Pynput.release
                        Examples.cfg_overlap NoteOff 30 0 initialState))
     = [CRelease (KStr "q")]
  /\ controller (snd (simulateKey Pynput.press Pynput.release
                        Examples.cfg_overlap NoteOff 100 0 initialState))
     = [CRelease (KStr "z")]
  /\ controller (snd (simulateKey Pynput.press Pynput.release
                        Examples.cfg_overlap NoteOn 40 90 initialState))
     = [CPress (KStr "a")].
Proof. by vm_compute. Qed.

(** C8: a note_on with velocity 0 is handled exactly as a note_off with
    velocity 0 for the same note: the same result and the same final
    state (controller calls, ledger, pressed keys, timers, sustain latch
    and all the rest), from every state and under any
    [press]/[release]. *)
Theorem zero_velocity_note_on_is_note_off
    (press release : KeyObj -> M unit) (cfg : Config)
    (note : Z) (st : State) :
  parseMidi press release cfg (note_on note 0) st
  = parseMidi press release cfg (note_off note 0) st.
Proof. reflexivity. Qed.

(** ** The sustain latch *)

(** The control-change branch of [parseMidi], by cases on the value and
    the latch. *)
Lemma parseMidi_control_change
    (press release : KeyObj -> M unit) (cfg : Config)
    (control value : Z) (st : State) :
  cfgSustain cfg = true ->
  parseMidi press release cfg (control_change control value) st
  = match value ?= sustainCutoff cfg, sustainActive st with
    | Gt, false => press (KStr "space") (with_sustainActive true st)
    | Lt, true => release (KStr "space") (with_sustainActive false st)
    | _, _ => (Ok tt, st)
    end.
Proof.
  intros Hs. unfold parseMidi. rewrite Hs.
  unfold bind, gets, modify, ret. simpl.
  rewrite Z.gtb_ltb. unfold Z.ltb. rewrite (Z.compare_antisym value).
  destruct (value ?= sustainCutoff cfg), (sustainActive st); reflexivity.
Qed.

Lemma midiLoop_cons
    (press release : KeyObj -> M unit) (cfg : Config)
    (msg : Message) (rest : list Message) (st : State) :
  stopEvent st = false -> closeThread st = false ->
  midiLoop press release cfg (msg :: rest) st
  = match parseMidi press release cfg msg st with
    | (Ok _, st') => midiLoop press release cfg rest st'
    | (Raise e, st') => (Raise e, st')
    end.
Proof.
  intros Hs Hc. simpl. unfold bind at 1, gets. by rewrite Hs, Hc.
Qed.

Lemma translateKey_space :
  Pynput.translateKey (KStr "space") = Ok (KKey "space").
Proof. reflexivity. Qed.

(** C4: with sustain enabled, from an inactive latch, the control values
    cutoff-1, cutoff+1, cutoff, cutoff+1, cutoff-1 (63, 65, 64, 65, 63 for
    cutoff 64) make the controller see one press of space followed by one
    release of space and nothing else, and leave the latch inactive.  In
    general, on any state and under any [press]/[release]: a value above
    the cutoff presses space only when the latch is inactive, a value
    below the cutoff releases it only when the latch is active, and every
    other case, a value equal to the cutoff among them, changes
    nothing. *)
Theorem sustain_latch_hysteresis (cfg : Config) (control : Z) (st : State) :
  cfgSustain cfg = true ->
  sustainActive st = false ->
  stopEvent st = false ->
  closeThread st = false ->
  (exists st' : State,
     midiLoop Pynput.press Pynput.release cfg
       (map (control_change control)
          [sustainCutoff cfg - 1; sustainCutoff cfg + 1; sustainCutoff cfg;
           sustainCutoff cfg + 1; sustainCutoff cfg - 1]) st
     = (Ok tt, st')
     /\ controller st'
        = (controller st ++ [CPress (KKey "space"); CRelease (KKey "space")])%list
     /\ sustainActive st' = false)
  /\ (forall (press release : KeyObj -> M unit) (value : Z) (st0 : State),
        parseMidi press release cfg (control_change control value) st0
        = match value ?= sustainCutoff cfg, sustainActive st0 with
          | Gt, false => press (KStr "space") (with_sustainActive true st0)
          | Lt, true => release (KStr "space") (with_sustainActive false st0)
          | _, _ => (Ok tt, st0)
          end).
Proof.
  intros Hsus Hidle Hstop Hclose.
  split; [|intros; by apply parseMidi_control_change].
  set (c := sustainCutoff cfg).
  assert (Hlt : (c - 1 ?= c) = Lt) by (apply Z.compare_lt_iff; lia).
  assert (Hgt : (c + 1 ?= c) = Gt) by (apply Z.compare_gt_iff; lia).
  assert (Heq : (c ?= c) = Eq) by apply Z.compare_refl.
  destruct (press_str_ok "space" _ (with_sustainActive true st)
              translateKey_space)
    as (st2 & Hpress & _ & Hc2 & (_ & Ha2 & Hs2 & Hcl2 & _)).
  destruct (release_str_ok "space" _ (with_sustainActive false st2)
              translateKey_space)
    as (st5 & Hrel & _ & Hc5 & (_ & Ha5 & Hs5 & Hcl5 & _)).
  simpl in Ha2, Hs2, Hcl2, Hc2, Ha5, Hs5, Hcl5, Hc5.
  exists st5. split; [|split].
  - simpl map.
    rewrite midiLoop_cons, parseMidi_control_change by done.
    fold c. rewrite Hlt, Hidle.
    rewrite midiLoop_cons, parseMidi_control_change by done.
    fold c. rewrite Hgt, Hidle, Hpress.
    rewrite midiLoop_cons, parseMidi_control_change by congruence.
    fold c. rewrite Heq.
    rewrite midiLoop_cons, parseMidi_control_change by congruence.
    fold c. rewrite Hgt, Ha2.
    rewrite midiLoop_cons, parseMidi_control_change by congruence.
    fold c. rewrite Hlt, Ha2, Hrel.
    reflexivity.
  - rewrite Hc5, Hc2. unfold release_calls, press_calls. simpl.
    by rewrite <- app_assoc.
  - by rewrite Ha5.
Qed.

Lemma sustain_latch_hysteresis_witness :
  (exists st' : State,
     midiLoop Pynput.press Pynput.release Examples.cfg
       (map (control_change 64) [64 - 1; 64 + 1; 64; 64 + 1; 64 - 1])
       initialState
     = (Ok tt, st')
     /\ controller st'
        = (controller initialState
           ++ [CPress (KKey "space"); CRelease (KKey "space")])%list
     /\ sustainActive st' = false)
  /\ (forall (press release : KeyObj -> M unit) (value : Z) (st0 : State),
        parseMidi press release Examples.cfg (control_change 64 value) st0
        = match value ?= 64, sustainActive st0 with
          | Gt, false => press (KStr "space") (with_sustainActive true st0)
          | Lt, true => release (KStr "space") (with_sustainActive false st0)
          | _, _ => (Ok tt, st0)
          end).
Proof.
  apply (sustain_latch_hysteresis Examples.cfg 64 initialState);
    reflexivity.
Defined.

(** ** The blocked-key filter *)

(** C10, as stated, fails for the tokens this module passes around, which
    are strings: [translateKey] rejects a string of more than one
    character that is not shift, ctrl, alt or space before
    [isBlockedKey] is asked, so [press("tab")] raises [ValueError]
    instead of returning. *)
Lemma blocked_string_token_raises :
  Py.lower (token_name (KStr "tab")) ∈ Pynput.blockedKeys
  /\ Pynput.press (KStr "tab") initialState
     = (Raise (ValueError "Unsupported key for pynput: tab"), initialState)
  /\ Pynput.release (KStr "tab") initialState
     = (Raise (ValueError "Unsupported key for pynput: tab"), initialState)
  /\ fst (Pynput.press (KStr "tab") initialState) <> Ok tt
  /\ fst (Pynput.release (KStr "tab") initialState) <> Ok tt.
Proof.
  split; [|split; [|split; [|split]]].
  - by vm_compute.
  - reflexivity.
  - reflexivity.
  - discriminate.
  - discriminate.
Qed.

(** C10 (amended): for every token naming one of f1..f12, tab, backspace
    or esc, [press] and [release] issue no keystroke and leave the whole
    state, ledger and pressed-keys set included, as it was.  A token that
    is a pynput [Key] makes them return at once; a token that is a string
    makes them raise [ValueError] from [translateKey]. *)
Theorem blocked_keys_frame (tok : KeyObj) (st : State) :
  Py.lower (token_name tok) ∈ Pynput.blockedKeys ->
  match tok with
  | KKey _ =>
      Pynput.press tok st = (Ok tt, st)
      /\ Pynput.release tok st = (Ok tt, st)
  | KStr s =>
      Pynput.press tok st
      = (Raise (ValueError ("Unsupported key for pynput: " ++ s)), st)
      /\ Pynput.release tok st
         = (Raise (ValueError ("Unsupported key for pynput: " ++ s)), st)
  end.
Proof.
  intros Hin. destruct tok as [s|name]; simpl in Hin.
  - assert (Ht : Pynput.translateKey (KStr s)
                 = Raise (ValueError ("Unsupported key for pynput: " ++ s))).
    { apply blockedKeys_elements in Hin. unfold Pynput.translateKey.
      simpl in Hin.
      repeat (destruct Hin as [<- | Hin]; [reflexivity|]). done. }
    by rewrite (press_str_raise _ _ _ Ht), (release_str_raise _ _ _ Ht).
  - unfold Pynput.press, Pynput.release, bind, lift; simpl.
    by rewrite (bool_decide_eq_true_2 _ Hin).
Qed.

Lemma blocked_keys_frame_witness :
  (Pynput.press (KKey "esc") initialState = (Ok tt, initialState)
   /\ Pynput.release (KKey "esc") initialState = (Ok tt, initialState))
  /\ (Pynput.press (KStr "F5") initialState
      = (Raise (ValueError ("Unsupported key for pynput: " ++ "F5")),
         initialState)
      /\ Pynput.release (KStr "F5") initialState
         = (Raise (ValueError ("Unsupported key for pynput: " ++ "F5")),
            initialState)).
Proof.
  split.
  - apply (blocked_keys_frame (KKey "esc") initialState). by vm_compute.
  - apply (blocked_keys_frame (KStr "F5") initialState). by vm_compute.
Defined.

(** ** Per-event isolation *)

(** C2 at its failing input: note 70 maps to "!" and note 69 has no entry
    in the 61-key map.  The lookup of the lower neighbour raises
    [KeyError], which the [except IndexError] of [parseMidi] does not
    catch: nothing is logged, the loop of the reader thread ends, and the
    note_on for note 60 that follows is never handled (alone it presses
    "c"). *)
Lemma missing_neighbour_ends_the_loop :
  fst (session Examples.cfg [note_on 70 100; note_on 60 100])
  = Raise (KeyError "69")
  /\ controller (snd (session Examples.cfg [note_on 70 100; note_on 60 100]))
     = []
  /\ diagnostics (snd (session Examples.cfg [note_on 70 100; note_on 60 100]))
     = []
  /\ controller (snd (session Examples.cfg [note_on 60 100]))
     = [CPress (KStr "c")].
Proof. by vm_compute. Qed.

(** ** The shutdown sweep *)

Lemma for_each_ok {A : Type} (body : A -> M unit) (xs : list A)
    (I : State -> State -> Prop) :
  (forall st : State, I st st) ->
  (forall st1 st2 st3 : State, I st1 st2 -> I st2 st3 -> I st1 st3) ->
  (forall (x : A) (st : State),
      exists st' : State, body x st = (Ok tt, st') /\ I st st') ->
  forall st : State,
    exists st' : State, for_each body xs st = (Ok tt, st') /\ I st st'.
Proof.
  intros Hrefl Htrans Hbody.
  induction xs as [|x xs IH]; intros st; simpl.
  - exists st. by split.
  - destruct (Hbody x st) as (st1 & Hx & HI1).
    destruct (IH st1) as (st2 & Hxs & HI2).
    exists st2. unfold bind. rewrite Hx. split; [done|]. eauto.
Qed.

(** A round of the sweep never raises, and touches neither the timers
    nor the display. *)
Lemma sweep_key_ok (key : string) (st : State) :
  exists st' : State, sweep_key key st = (Ok tt, st').
Proof.
  unfold sweep_key, try_except.
  destruct (_ st) as [[[]|e] st']; eauto.
Qed.

Lemma sweep_key_sweepable (key : string) (st : State) :
  sweepable key = true ->
  exists st' : State,
    sweep_key key st = (Ok tt, st')
    /\ controller st' = (controller st ++ sweep_calls key)%list.
Proof.
  unfold sweepable, sweep_key, sweep_calls, try_except.
  destruct (Py.startswith key "shift+") eqn:Hpre; simpl.
  - intros _. eexists. split; [reflexivity|]. simpl.
    by rewrite <- app_assoc.
  - intros Hplain.
    apply andb_prop in Hplain as [Hplain Hns].
    apply andb_prop in Hplain as [Hlen Hlow].
    apply Nat.eqb_eq in Hlen. apply String.eqb_eq in Hlow.
    assert (Ht : Pynput.translateKey (KStr key) = Ok (KStr key)).
    { unfold Pynput.translateKey. rewrite Hlow.
      destruct key as [|c [|c' key]]; simpl in Hlen; try lia.
      unfold Pynput.specialKeyMap; simpl.
      by repeat (destruct (Ascii.eqb c _)). }
    destruct (release_str_ok key _ st Ht) as (st' & Hrel & _ & Hc & _).
    exists st'. rewrite Hrel. split; [done|].
    rewrite Hc. unfold release_calls. simpl.
    apply negb_true_iff in Hns. by rewrite Hns.
Qed.

Lemma sweep_sweepable (keys : list string) :
  Forall (fun key => sweepable key = true) keys ->
  forall st : State,
    exists st' : State,
      for_each sweep_key keys st = (Ok tt, st')
      /\ controller st'
         = (controller st ++ concat (map sweep_calls keys))%list.
Proof.
  induction 1 as [|key keys Hkey _ IH]; intros st; simpl.
  - exists st. by rewrite app_nil_r.
  - destruct (sweep_key_sweepable key st Hkey) as (st1 & Hx & Hc1).
    destruct (IH st1) as (st2 & Hxs & Hc2).
    exists st2. unfold bind. rewrite Hx. split; [done|].
    by rewrite Hc2, Hc1, <- app_assoc.
Qed.

(** After the sweep, [stopMidiInput] clears the ledger and the timers and
    returns; it makes no controller call of its own. *)
Lemma stopMidiInput_after_sweep (st st1 : State) :
  for_each sweep_key (Dict.keys (heldKeys st))
    (with_stop_flags true true false st) = (Ok tt, st1) ->
  exists st2 : State,
    stopMidiInput st = (Ok tt, st2)
    /\ heldKeys st2 = []
    /\ timerList st2 = []
    /\ controller st2 = controller st1.
Proof.
  intros Hsweep. unfold stopMidiInput.
  unfold bind at 1, modify at 1. unfold bind at 1, gets at 1.
  simpl heldKeys. unfold bind at 1. rewrite Hsweep.
  unfold bind at 1, modify at 1. unfold bind at 1, modify at 1.
  unfold try_except, bind at 1, PianoWidget.currentNotes, gets.
  set (st' := with_timerList _ _).
  destruct (for_each_ok PianoWidget.up (piano st')
              (fun a b => heldKeys b = heldKeys a
                          /\ timerList b = timerList a
                          /\ controller b = controller a))
    with (st := st') as (st2 & Hups & Hh & Ht & Hc).
  { done. }
  { intros a b c (? & ? & ?) (? & ? & ?). repeat split; congruence. }
  { intros n a. eexists. split; [reflexivity|]. done. }
  rewrite Hups. exists st2. split; [done|].
  rewrite Hh, Ht, Hc. done.
Qed.

(** [stopMidiInput] always returns and always leaves the ledger empty; on
    an empty ledger it makes no controller call. *)
Lemma stopMidiInput_total (st : State) :
  exists st1 : State,
    stopMidiInput st = (Ok tt, st1)
    /\ heldKeys st1 = []
    /\ (heldKeys st = [] -> controller st1 = controller st).
Proof.
  destruct (for_each_ok sweep_key (Dict.keys (heldKeys st))
              (fun _ _ => True)) with (st := with_stop_flags true true false st)
    as (st1 & Hsweep & _); [done|done| |].
  { intros key a. destruct (sweep_key_ok key a) as (b & Hb). eauto. }
  destruct (stopMidiInput_after_sweep st st1 Hsweep)
    as (st2 & Hstop & Hh & _ & Hc).
  exists st2. split; [done|]. split; [done|].
  intros Hempty. rewrite Hempty in Hsweep. simpl in Hsweep.
  injection Hsweep as <-. by rewrite Hc.
Qed.

(** C1, as stated, fails: after the single event note_on(62), whose key
    "#" pynput types with shift, the ledger has one entry ("shift+#") and
    [stopMidiInput] issues two controller releases for it, the character
    and shift. *)
Lemma stopMidiInput_two_releases_for_one_entry :
  let st := snd (session Examples.cfg [note_on 62 100]) in
  Dict.keys (heldKeys st) = ["shift+#"]
  /\ controller (snd (stopMidiInput st))
     = (controller st ++ [CRelease (KStr "#"); CRelease (KKey "shift")])%list
  /\ length (List.filter is_release (controller (snd (stopMidiInput st))))
     <> (length (List.filter is_release (controller st))
         + length (heldKeys st))%nat.
Proof. cbv zeta. split; [|split]; by vm_compute. Qed.

(** The sweep hands the ledger key back to [release]; for a named key the
    ledger key is ["Key.space"], which [translateKey] rejects, and the
    [except] swallows the error: after a pedal press [stopMidiInput]
    empties the ledger without releasing space. *)
Lemma stopMidiInput_skips_named_keys :
  let st := snd (session Examples.cfg [control_change 64 65]) in
  Dict.keys (heldKeys st) = ["Key.space"]
  /\ controller st = [CPress (KKey "space")]
  /\ stopMidiInput st
     = (Ok tt, snd (stopMidiInput st))
  /\ heldKeys (snd (stopMidiInput st)) = []
  /\ controller (snd (stopMidiInput st)) = [CPress (KKey "space")].
Proof. cbv zeta. repeat split; by vm_compute. Qed.

(** C1 (amended): [stopMidiInput] never raises and leaves the ledger
    empty.  On a ledger whose entries are single lower-case characters
    and "shift+" composites it issues, in ledger order, one controller
    release for each single character and two (the character, then
    shift) for each composite, and nothing else.  A second call right
    after raises no error, makes no controller call and leaves the ledger
    empty. *)
Theorem stopMidiInput_drains_ledger (st : State) :
  Forall (fun key => sweepable key = true) (Dict.keys (heldKeys st)) ->
  exists st1 : State,
    stopMidiInput st = (Ok tt, st1)
    /\ heldKeys st1 = []
    /\ controller st1
       = (controller st
          ++ concat (map sweep_calls (Dict.keys (heldKeys st))))%list
    /\ Forall (fun c => is_release c = true)
              (concat (map sweep_calls (Dict.keys (heldKeys st))))
    /\ length (concat (map sweep_calls (Dict.keys (heldKeys st))))
       = (length (heldKeys st)
          + length (List.filter (fun key => Py.startswith key "shift+")
                                (Dict.keys (heldKeys st))))%nat
    /\ exists st2 : State,
         stopMidiInput st1 = (Ok tt, st2)
         /\ heldKeys st2 = []
         /\ controller st2 = controller st1.
Proof.
  intros Hkeys.
  destruct (sweep_sweepable _ Hkeys (with_stop_flags true true false st))
    as (st1 & Hsweep & Hc1).
  destruct (stopMidiInput_after_sweep st st1 Hsweep)
    as (st2 & Hstop & Hh & _ & Hc2).
  exists st2. split; [done|]. split; [done|]. split.
  { by rewrite Hc2, Hc1. }
  split; [|split].
  - clear. unfold Dict.keys.
    induction (heldKeys st) as [|[k v] d IH]; simpl; [constructor|].
    apply Forall_app. split; [|done].
    unfold sweep_calls. destruct (Py.startswith k "shift+");
      repeat constructor.
  - clear. unfold Dict.keys.
    induction (heldKeys st) as [|[k v] d IH]; simpl; [done|].
    rewrite length_app, IH. unfold sweep_calls.
    destruct (Py.startswith k "shift+"); simpl; lia.
  - destruct (stopMidiInput_total st2) as (st3 & Hstop3 & Hh3 & Hc3).
    exists st3. split; [done|]. split; [done|]. by apply Hc3.
Qed.

Lemma stopMidiInput_drains_ledger_witness :
  let st :=
    snd (session Examples.cfg [note_on 60 100; note_on 62 100; note_on 48 100])
  in
  exists st1 : State,
    stopMidiInput st = (Ok tt, st1)
    /\ heldKeys st1 = []
    /\ controller st1
       = (controller st
          ++ concat (map sweep_calls (Dict.keys (heldKeys st))))%list
    /\ Forall (fun c => is_release c = true)
              (concat (map sweep_calls (Dict.keys (heldKeys st))))
    /\ length (concat (map sweep_calls (Dict.keys (heldKeys st))))
       = (length (heldKeys st)
          + length (List.filter (fun key => Py.startswith key "shift+")
                                (Dict.keys (heldKeys st))))%nat
    /\ exists st2 : State,
         stopMidiInput st1 = (Ok tt, st2)
         /\ heldKeys st2 = []
         /\ controller st2 = controller st1.
Proof.
  cbv zeta.
  apply (stopMidiInput_drains_ledger
           (snd (session Examples.cfg
                   [note_on 60 100; note_on 62 100; note_on 48 100]))).
  vm_compute. repeat constructor.
Defined.

(** ** The round trip of a note *)

Lemma post_bind {A B : Type} (m : M A) (k : A -> M B) (st : State)
    (Q : result B -> State -> Prop) :
  post m st (fun r st' =>
    match r with
    | Ok a => post (k a) st' Q
    | Raise e => Q (Raise e) st'
    end) ->
  post (bind m k) st Q.
Proof.
  unfold post, bind. by destruct (m st) as [[a|e] st'].
Qed.

Lemma post_seq {A B : Type} (m : M A) (k : A -> M B) (st : State)
    (R : result A -> State -> Prop) (Q : result B -> State -> Prop) :
  post m st R ->
  (forall (a : A) (st' : State), R (Ok a) st' -> post (k a) st' Q) ->
  (forall (e : exn) (st' : State), R (Raise e) st' -> Q (Raise e) st') ->
  post (bind m k) st Q.
Proof.
  unfold post, bind. destruct (m st) as [[a|e] st']; simpl; eauto.
Qed.

Lemma dict_set_keys {V : Type} (k : string) (v : V) (d : list (string * V)) :
  (list_to_set (Dict.keys (Dict.set k v d)) : gset string)
  = list_to_set (Dict.keys d) ∪ {[ k ]}.
Proof.
  unfold Dict.keys. induction d as [|[k' v'] d IH]; simpl.
  - set_solver.
  - destruct (String.eqb_spec k k') as [->|Hne]; simpl.
    + set_solver.
    + rewrite IH. set_solver.
Qed.

Lemma dict_del_keys {V : Type} (k : string) (d : list (string * V)) :
  (list_to_set (Dict.keys (Dict.del k d)) : gset string)
  = list_to_set (Dict.keys d) ∖ {[ k ]}.
Proof.
  unfold Dict.keys, Dict.del. induction d as [|[k' v'] d IH]; simpl.
  - set_solver.
  - destruct (String.eqb_spec k k') as [->|Hne]; simpl.
    + rewrite IH. set_solver.
    + rewrite IH. set_solver.
Qed.

Lemma ledger_keys_empty (st : State) :
  ledger_keys st = ∅ -> heldKeys st = [].
Proof.
  unfold ledger_keys, Dict.keys. destruct (heldKeys st) as [|[k v] d]; [done|].
  simpl. set_solver.
Qed.

Lemma post_press (s : string) (st : State) (Q : result unit -> State -> Prop) :
  (forall (k : KeyObj) (st' : State),
      Pynput.translateKey (KStr s) = Ok k ->
      ledger_keys st' = ledger_keys st ∪ {[ ledger_key k ]} ->
      Q (Ok tt) st') ->
  (forall e : exn, is_IndexError e = false -> Q (Raise e) st) ->
  post (Pynput.press (KStr s)) st Q.
Proof.
  intros Hok Hraise. unfold post.
  destruct (Pynput.translateKey (KStr s)) as [k|e] eqn:Ht.
  - destruct (press_str_ok s k st Ht) as (st' & -> & Hh & _).
    simpl. apply (Hok k); [done|].
    unfold ledger_keys. by rewrite Hh, dict_set_keys.
  - rewrite (press_str_raise s e st Ht). simpl.
    apply Hraise. by apply translateKey_raise in Ht.
Qed.

Lemma post_release (s : string) (st : State) (Q : result unit -> State -> Prop) :
  (forall (k : KeyObj) (st' : State),
      Pynput.translateKey (KStr s) = Ok k ->
      ledger_keys st' = ledger_keys st ∖ {[ ledger_key k ]} ->
      Q (Ok tt) st') ->
  (forall e : exn,
      Pynput.translateKey (KStr s) = Raise e ->
      is_IndexError e = false -> Q (Raise e) st) ->
  post (Pynput.release (KStr s)) st Q.
Proof.
  intros Hok Hraise. unfold post.
  destruct (Pynput.translateKey (KStr s)) as [k|e] eqn:Ht.
  - destruct (release_str_ok s k st Ht) as (st' & -> & Hh & _).
    simpl. apply (Hok k); [done|].
    unfold ledger_keys. by rewrite Hh, dict_del_keys.
  - rewrite (release_str_raise s e st Ht). simpl.
    apply Hraise; [done|]. by apply translateKey_raise in Ht.
Qed.

Lemma post_pressAndMaybeRelease (cfg : Config) (s : string) (st : State)
    (Q : result unit -> State -> Prop) :
  (forall (k : KeyObj) (st' : State),
      Pynput.translateKey (KStr s) = Ok k ->
      ledger_keys st' = ledger_keys st ∪ {[ ledger_key k ]} ->
      Q (Ok tt) st') ->
  (forall e : exn, is_IndexError e = false -> Q (Raise e) st) ->
  post (pressAndMaybeRelease Pynput.press cfg s) st Q.
Proof.
  intros Hok Hraise. unfold pressAndMaybeRelease.
  apply post_bind, post_press.
  - intros k st' Ht HK. destruct (customHoldLength cfg); unfold post; simpl.
    + by apply (Hok k).
    + by apply (Hok k).
  - done.
Qed.

Section RoundTrip.
Variable cfg : Config.
Variables (note : Z) (key : string).
Hypothesis Hreg : 36 <= note <= 96.
Hypothesis Hres : resolveKey cfg note = Some key.
Hypothesis Hsym : has_symbol key = false.

Lemma natural_register_passes_gate :
negb ((-15 <=? note - 36) && (note - 36 <=? 88)) = false.
Proof.
destruct (Z.leb_spec (-15) (note - 36)); destruct (Z.leb_spec (note - 36) 88); simpl; try done; lia.
Qed.
Lemma natural_register_true : in_natural_register note = true.
Proof. unfold in_natural_register.
destruct (Z.leb_spec 36 note); destruct (Z.leb_spec note 96); simpl; try done; lia.
Qed.

Lemma note_off_ledger (velocity : Z) (st : State) :
post (simulateKey Pynput.press Pynput.release cfg NoteOff note velocity) st
  (fun _ st' =>
     ledger_keys st' ⊆ ledger_keys st
     /\ forall k : KeyObj,
          Pynput.translateKey (KStr (Py.lower key)) = Ok k ->
          ledger_keys st' = ledger_keys st ∖ {[ ledger_key k ]}).
Proof.
unfold simulateKey. rewrite natural_register_passes_gate, Hres, natural_register_true, Hsym.
destruct (Py.truthy key) eqn:Htr; simpl negb; cbv iota.
- apply post_bind. unfold post at 1. simpl fst. simpl snd. cbv iota.
  apply post_release.
  + intros k st' Ht HK. split; [set_solver|].
    intros k' Ht'. rewrite Ht in Ht'. injection Ht' as <-. done.
  + intros e Ht _. split; [done|]. intros k Ht'. congruence.
- unfold post. simpl. split; [done|].
  destruct key; [|done]. intros k. discriminate.
Qed.

Lemma note_on_ledger (velocity : Z) (st : State) :
ledger_keys st = ∅ ->
post (simulateKey Pynput.press Pynput.release cfg NoteOn note velocity) st
  (fun r st' =>
     match r with
     | Ok _ =>
         ledger_keys st' = ∅
         \/ exists k : KeyObj,
              Pynput.translateKey (KStr (Py.lower key)) = Ok k
              /\ ledger_keys st' ⊆ {[ ledger_key k ]}
     | Raise e => is_IndexError e = true -> ledger_keys st' = ∅
     end).
Proof.
intros Hempty.
unfold simulateKey. rewrite natural_register_passes_gate, Hres, natural_register_true, Hsym.
destruct (Py.truthy key) eqn:Htr; simpl negb; cbv iota;
  [|unfold post; simpl; by left].
apply post_bind. unfold post at 1. simpl fst. simpl snd. cbv iota.
set (st0 := with_piano _ st).
assert (H0 : ledger_keys st0 = ∅) by done.
clearbody st0. clear Hempty st.
apply (post_seq _ _ _
  (fun r st' =>
     match r with
     | Ok _ => ledger_keys st' = ∅
     | Raise e => is_IndexError e = true -> ledger_keys st' = ∅
     end)); [| |done].
{ destruct (cfgVelocity cfg); [|by unfold post].
  apply post_bind. unfold post at 1, findVelocityKey, lift.
  simpl fst. simpl snd.
  destruct (Velocity.findVelocityKey (velocityMap cfg) velocity)
    as [vk|e]; [|done].
  apply post_bind, post_press; [|intros; simpl; congruence].
  intros ka st1 Hka HK1.
  apply post_bind, post_press; [|intros; simpl; congruence].
  intros kv st2 Hkv HK2.
  apply post_bind, post_release; [|intros; simpl; congruence].
  intros kv' st3 Hkv' HK3.
  apply post_release; [|intros; simpl; congruence].
  intros ka' st4 Hka' HK4.
  assert (kv' = kv) by congruence. assert (ka' = ka) by congruence.
  subst. rewrite HK4, HK3, HK2, HK1, H0. set_solver. }
intros _ st1 H1. clear H0 st0.
apply (post_seq _ _ _
  (fun r st' =>
     match r with
     | Ok _ => ledger_keys st' = ∅
     | Raise e => is_IndexError e = false
     end)); [| |intros; simpl; congruence].
{ destruct (cfgNoDoubles cfg); [|by unfold post].
  apply post_release.
  - intros k st' _ HK. rewrite HK, H1. set_solver.
  - done. }
intros _ st2 H2. clear H1 st1.
destruct (Py.isupper key).
- apply post_bind, post_press; [|intros; simpl; congruence].
  intros ks st3 Hks HK3.
  apply post_bind, post_pressAndMaybeRelease; [|intros; simpl; congruence].
  intros k st4 Hk HK4.
  apply post_release; [|intros; simpl; congruence].
  intros ks' st5 Hks' HK5. assert (ks' = ks) by congruence. subst.
  right. exists k. split; [done|].
  rewrite HK5, HK4, HK3, H2. set_solver.
- apply post_pressAndMaybeRelease; [|intros; simpl; congruence].
  intros k st3 Hk HK3.
  right. exists k. split; [by apply translateKey_lower|].
  rewrite HK3, H2. set_solver.
Qed.
End RoundTrip.

(** The [try]/[except IndexError] of [parseMidi] leaves the ledger as the
    guarded call left it, and returns normally exactly when that call
    returned or raised [IndexError]. *)
Lemma try_except_ledger (m : M unit) (st : State) :
  ledger_keys (snd (try_except m is_IndexError (log IndexErrorLogged) st))
  = ledger_keys (snd (m st))
  /\ (fst (try_except m is_IndexError (log IndexErrorLogged) st) = Ok tt ->
      match fst (m st) with
      | Ok _ => True
      | Raise e => is_IndexError e = true
      end).
Proof.
  unfold try_except. destruct (m st) as [[[]|e] st']; simpl; [done|].
  destruct (is_IndexError e); simpl; [done|]. split; [done|discriminate].
Qed.

(** C7, as stated, fails: note 64 is mapped to "F1", which is no symbol
    of the shift-wrapped kind and is upper case.  The note_on presses
    shift and then fails on the unsupported key "f1" with [ValueError];
    shift stays in the ledger, and the note_off does not remove it. *)
Lemma round_trip_leaves_shift_held :
  let on := parseMidi Pynput.press Pynput.release Examples.cfg
              (note_on 64 100) initialState in
  let off := parseMidi Pynput.press Pynput.release Examples.cfg
               (note_off 64 0) (snd on) in
  36 <= 64 <= 96
  /\ resolveKey Examples.cfg 64 = Some "F1"
  /\ has_symbol "F1" = false
  /\ customHoldLength Examples.cfg = false
  /\ heldKeys initialState = []
  /\ fst on = Raise (ValueError "Unsupported key for pynput: f1")
  /\ Dict.keys (heldKeys (snd on)) = ["Key.shift"]
  /\ Dict.keys (heldKeys (snd off)) = ["Key.shift"]
  /\ heldKeys (snd off) <> [].
Proof.
  cbv zeta. split; [lia|]. repeat split; try by vm_compute.
Qed.

(** C7 (amended): for a note in 36..96 whose key is not a shift-wrapped
    symbol, with the hold-length override disabled and the ledger empty,
    if the note_on is handled without an exception leaving [parseMidi]
    (every key it presses is one pynput supports), then the note_off that
    follows leaves the ledger empty. *)
Theorem note_on_off_round_trip
    (cfg : Config) (note velocity velocity' : Z) (key : string)
    (st st1 : State) :
  36 <= note <= 96 ->
  resolveKey cfg note = Some key ->
  has_symbol key = false ->
  customHoldLength cfg = false ->
  heldKeys st = [] ->
  parseMidi Pynput.press Pynput.release cfg (note_on note velocity) st
  = (Ok tt, st1) ->
  heldKeys (snd (parseMidi Pynput.press Pynput.release cfg
                   (note_off note velocity') st1)) = [].
Proof.
  intros Hreg Hres Hsym _ Hempty Hon.
  assert (H0 : ledger_keys st = ∅) by (unfold ledger_keys; by rewrite Hempty).
  assert (H1 : ledger_keys st1 = ∅
               \/ exists k : KeyObj,
                    Pynput.translateKey (KStr (Py.lower key)) = Ok k
                    /\ ledger_keys st1 ⊆ {[ ledger_key k ]}).
  { unfold parseMidi in Hon.
    destruct (try_except_ledger
                (if velocity =? 0
                 then simulateKey Pynput.press Pynput.release cfg NoteOff
                        note velocity
                 else simulateKey Pynput.press Pynput.release cfg NoteOn
                        note velocity) st) as [HK Hres'].
    rewrite Hon in HK, Hres'. simpl in HK, Hres'. specialize (Hres' eq_refl).
    rewrite HK. clear HK Hon.
    destruct (velocity =? 0).
    - left.
      pose proof (note_off_ledger cfg note key Hreg Hres Hsym velocity st)
        as [Hsub _].
      rewrite H0 in Hsub. set_solver.
    - pose proof (note_on_ledger cfg note key Hreg Hres Hsym velocity st H0)
        as Hpost.
      unfold post in Hpost.
      destruct (fst _) as [[]|e]; [done|]. left. by apply Hpost. }
  apply ledger_keys_empty.
  unfold parseMidi.
  destruct (try_except_ledger
              (if velocity' =? 0
               then simulateKey Pynput.press Pynput.release cfg NoteOff
                      note velocity'
               else simulateKey Pynput.press Pynput.release cfg NoteOff
                      note velocity') st1) as [HK _].
  rewrite HK. clear HK.
  assert (Hoff :
    ledger_keys (snd (simulateKey Pynput.press Pynput.release cfg NoteOff
                        note velocity' st1)) = ∅).
  { pose proof (note_off_ledger cfg note key Hreg Hres Hsym velocity' st1)
      as [Hsub Hdel].
    destruct H1 as [H1 | (k & Hk & H1)].
    - rewrite H1 in Hsub. set_solver.
    - rewrite (Hdel k Hk). set_solver. }
  by destruct (velocity' =? 0).
Qed.

Lemma note_on_off_round_trip_witness :
  heldKeys
    (snd (parseMidi Pynput.press Pynput.release Examples.cfg (note_off 66 0)
            (snd (parseMidi Pynput.press Pynput.release Examples.cfg
                    (note_on 66 100) initialState))))
  = [].
Proof.
  apply (note_on_off_round_trip Examples.cfg 66 100 0 "T" initialState
           (snd (parseMidi Pynput.press Pynput.release Examples.cfg
                   (note_on 66 100) initialState))).
  - lia.
  - by vm_compute.
  - reflexivity.
  - reflexivity.
  - reflexivity.
  - by vm_compute.
Defined.

(** ** [setupYdotoolSocket]: results *)

Lemma search_spec (path_exists : string -> bool) (paths : list string)
    (environ : gmap string string) :
  match Ydotool.search path_exists paths environ with
  | (true, environ') =>
      exists (before after : list string) (p : string),
        paths = (before ++ p :: after)%list
        /\ Forall (fun q => path_exists q = false) before
        /\ path_exists p = true
        /\ environ' = <[ "YDOTOOL_SOCKET" := p ]> environ
  | (false, environ') =>
      environ' = environ /\ Forall (fun q => path_exists q = false) paths
  end.
Proof.
  induction paths as [|q paths IH]; simpl.
  - by split.
  - destruct (path_exists q) eqn:Hq.
    + exists [], paths, q. by repeat split.
    + destruct (Ydotool.search path_exists paths environ) as [[] environ'].
      * destruct IH as (before & after & p & -> & Hb & Hp & ->).
        exists (q :: before), after, p. repeat split; try done.
        by constructor.
      * destruct IH as [-> Hall]. split; [done|]. by constructor.
Qed.

Lemma socket_paths_truthy (uid : Z) :
  Forall (fun p => Py.truthy p = true) (Ydotool.socket_paths uid).
Proof. repeat constructor. Qed.

(** X1: what [setupYdotoolSocket] returns and leaves in the environment.
    A non-empty YDOTOOL_SOCKET is never overridden.  Otherwise the
    variable is set to the first of the three candidate paths that
    exists, in the order own-uid run directory, /run/user/1000, /tmp; all
    other variables stay as they were.  [False] is returned exactly when
    the variable was unset or empty and no candidate exists, and then the
    environment is unchanged. *)
Theorem setupYdotoolSocket_result (uid : Z) (path_exists : string -> bool)
    (environ : gmap string string) :
  match Ydotool.setupYdotoolSocket uid path_exists environ with
  | (true, environ') =>
      (exists value : string,
          environ !! "YDOTOOL_SOCKET" = Some value
          /\ Py.truthy value = true /\ environ' = environ)
      \/ (exists (before after : list string) (p : string),
             Ydotool.socket_paths uid = (before ++ p :: after)%list
             /\ Forall (fun q => path_exists q = false) before
             /\ path_exists p = true
             /\ environ' = <[ "YDOTOOL_SOCKET" := p ]> environ
             /\ (environ !! "YDOTOOL_SOCKET" = None
                 \/ environ !! "YDOTOOL_SOCKET" = Some ""))
  | (false, environ') =>
      environ' = environ
      /\ Forall (fun q => path_exists q = false) (Ydotool.socket_paths uid)
      /\ (environ !! "YDOTOOL_SOCKET" = None
          \/ environ !! "YDOTOOL_SOCKET" = Some "")
  end.
Proof.
  unfold Ydotool.setupYdotoolSocket.
  pose proof (search_spec path_exists (Ydotool.socket_paths uid) environ)
    as Hsearch.
  destruct (environ !! "YDOTOOL_SOCKET") as [value|] eqn:Hget.
  - destruct (Py.truthy value) eqn:Htr.
    + left. by exists value.
    + assert (value = "") as -> by (by destruct value).
      destruct (Ydotool.search _ _ _) as [[] environ'].
      * right. destruct Hsearch as (b & a & p & ? & ? & ? & ?).
        exists b, a, p. repeat split; try done. by right.
      * destruct Hsearch. repeat split; try done. by right.
  - destruct (Ydotool.search _ _ _) as [[] environ'].
    + right. destruct Hsearch as (b & a & p & ? & ? & ? & ?).
      exists b, a, p. repeat split; try done. by left.
    + destruct Hsearch. repeat split; try done. by left.
Qed.

Lemma setupYdotoolSocket_truthy_aux (uid : Z) (path_exists : string -> bool)
    (environ : gmap string string) :
  match Ydotool.setupYdotoolSocket uid path_exists environ with
  | (true, environ') =>
      exists value : string,
        environ' !! "YDOTOOL_SOCKET" = Some value /\ Py.truthy value = true
  | (false, environ') => environ' = environ
  end.
Proof.
  unfold Ydotool.setupYdotoolSocket.
  pose proof (search_spec path_exists (Ydotool.socket_paths uid) environ)
    as Hsearch.
  pose proof (socket_paths_truthy uid) as Htruthy.
  assert (Hfound :
    match Ydotool.search path_exists (Ydotool.socket_paths uid) environ with
    | (true, environ') =>
        exists value : string,
          environ' !! "YDOTOOL_SOCKET" = Some value /\ Py.truthy value = true
    | (false, environ') => environ' = environ
    end).
  { destruct (Ydotool.search _ _ _) as [[] environ'].
    - destruct Hsearch as (b & a & p & Hsplit & _ & _ & ->).
      exists p. split; [by rewrite lookup_insert_eq|].
      rewrite Hsplit in Htruthy. apply Forall_app in Htruthy as [_ Hp].
      by inversion Hp.
    - by destruct Hsearch. }
  destruct (environ !! "YDOTOOL_SOCKET") as [value|] eqn:Hget; [|done].
  destruct (Py.truthy value) eqn:Htr; [|done]. by exists value.
Qed.

(** X2: [setupYdotoolSocket] is idempotent on an unchanged file system:
    a second call returns what the first returned and leaves the
    environment the first call left; after a call that returned [True]
    the variable holds a non-empty value, and a call that returned
    [False] changed nothing. *)
Theorem setupYdotoolSocket_idempotent (uid : Z)
    (path_exists : string -> bool) (environ : gmap string string) :
  Ydotool.setupYdotoolSocket uid path_exists
    (snd (Ydotool.setupYdotoolSocket uid path_exists environ))
  = Ydotool.setupYdotoolSocket uid path_exists environ
  /\ (if fst (Ydotool.setupYdotoolSocket uid path_exists environ)
      then exists value : string,
             snd (Ydotool.setupYdotoolSocket uid path_exists environ)
               !! "YDOTOOL_SOCKET" = Some value
             /\ Py.truthy value = true
      else snd (Ydotool.setupYdotoolSocket uid path_exists environ)
           = environ).
Proof.
  pose proof (setupYdotoolSocket_truthy_aux uid path_exists environ) as Haux.
  destruct (Ydotool.setupYdotoolSocket uid path_exists environ)
    as [[] environ'] eqn:Hrun; simpl.
  - destruct Haux as (value & Hget & Htr). split; [|by eauto].
    unfold Ydotool.setupYdotoolSocket. by rewrite Hget, Htr.
  - subst environ'. by split.
Qed.

(** ** Invariants of message handling *)

Lemma preserves_ret {A : Type} (P : State -> Prop) (a : A) :
  preserves P (ret a).
Proof. by intros st. Qed.

Lemma preserves_raise {A : Type} (P : State -> Prop) (e : exn) :
  preserves P (@raise A e).
Proof. by intros st. Qed.

Lemma preserves_lift {A : Type} (P : State -> Prop) (r : result A) :
  preserves P (lift r).
Proof. by intros st. Qed.

Lemma preserves_gets {A : Type} (P : State -> Prop) (f : State -> A) :
  preserves P (gets f).
Proof. by intros st. Qed.

Lemma preserves_modify (P : State -> Prop) (f : State -> State) :
  (forall st : State, P st -> P (f st)) -> preserves P (modify f).
Proof. intros Hf st. apply Hf. Qed.

Lemma preserves_bind {A B : Type} (P : State -> Prop) (m : M A)
    (k : A -> M B) :
  preserves P m -> (forall a : A, preserves P (k a)) ->
  preserves P (bind m k).
Proof.
  intros Hm Hk st HP. unfold bind. specialize (Hm st HP).
  destruct (m st) as [[a|e] st']; simpl in *; [by apply Hk|done].
Qed.

Lemma preserves_try_except {A : Type} (P : State -> Prop) (m : M A)
    (caught : exn -> bool) (handler : M A) :
  preserves P m -> preserves P handler ->
  preserves P (try_except m caught handler).
Proof.
  intros Hm Hh st HP. unfold try_except. specialize (Hm st HP).
  destruct (m st) as [[a|e] st']; simpl in *; [done|].
  destruct (caught e); [by apply Hh|done].
Qed.

Lemma preserves_for_each {A : Type} (P : State -> Prop) (body : A -> M unit)
    (xs : list A) :
  (forall x : A, preserves P (body x)) -> preserves P (for_each body xs).
Proof.
  intros Hbody. induction xs as [|x xs IH]; simpl.
  - apply preserves_ret.
  - apply preserves_bind; [apply Hbody|by intros _].
Qed.

Ltac preserve_step :=
  match goal with
  | |- preserves _ (bind _ _) => apply preserves_bind; [|intros ?]
  | |- preserves _ (ret _) => apply preserves_ret
  | |- preserves _ (raise _) => apply preserves_raise
  | |- preserves _ (lift _) => apply preserves_lift
  | |- preserves _ (gets _) => apply preserves_gets
  | |- preserves _ (if ?b then _ else _) => destruct b
  | |- preserves _ (match ?x with _ => _ end) => destruct x
  end.

Section Preservation.

(** A property of the state that [press] and [release] keep, and that
    does not depend on the display, the diagnostics or (when timers are
    armed at all) the timer list, is kept by every note event. *)
Variables press release : KeyObj -> M unit.
Variable cfg : Config.
Variable P : State -> Prop.
Hypothesis Hpress : forall s : string, preserves P (press (KStr s)).
Hypothesis Hrelease : forall s : string, preserves P (release (KStr s)).
Hypothesis Hpiano :
  forall (f : list Z -> list Z) (st : State), P st -> P (with_piano f st).
Hypothesis Hdiag :
  forall (f : list Diagnostic -> list Diagnostic) (st : State),
    P st -> P (with_diagnostics f st).
Hypothesis Htimer :
  customHoldLength cfg = true ->
  forall (f : list string -> list string) (st : State),
    P st -> P (with_timerList f st).

Lemma log_preserves (d : Diagnostic) : preserves P (log d).
Proof. apply preserves_modify. intros st. apply Hdiag. Qed.

Lemma letterNote_preserves (n : Z) : preserves P (letterNote cfg n).
Proof. unfold letterNote. repeat preserve_step. Qed.

Lemma pressAndMaybeRelease_preserves (key : string) :
  preserves P (pressAndMaybeRelease press cfg key).
Proof.
  unfold pressAndMaybeRelease. preserve_step; [apply Hpress|].
  destruct (customHoldLength cfg) eqn:Hhold; [|apply preserves_ret].
  apply preserves_modify. intros st. by apply Htimer.
Qed.

Lemma simulateKey_preserves (msgType : MsgType) (note velocity : Z) :
  preserves P (simulateKey press release cfg msgType note velocity).
Proof.
  unfold simulateKey, findVelocityKey, PianoWidget.down, PianoWidget.up.
  repeat first
    [ apply log_preserves
    | apply letterNote_preserves
    | apply pressAndMaybeRelease_preserves
    | apply Hpress
    | apply Hrelease
    | apply preserves_modify; intros st; apply Hpiano
    | preserve_step ].
Qed.

Lemma parseMidi_note_preserves (message : Message) :
  match message with control_change _ _ => False | _ => True end ->
  preserves P (parseMidi press release cfg message).
Proof.
  destruct message as [c v|n v|n v|]; [done| | |]; intros _; unfold parseMidi.
  - apply preserves_try_except; [|apply log_preserves].
    destruct (v =? 0); apply simulateKey_preserves.
  - apply preserves_try_except; [|apply log_preserves].
    destruct (v =? 0); apply simulateKey_preserves.
  - apply preserves_ret.
Qed.

Hypothesis Hsustain :
  cfgSustain cfg = true ->
  forall (b : bool) (st : State), P st -> P (with_sustainActive b st).

Lemma parseMidi_preserves (message : Message) :
  preserves P (parseMidi press release cfg message).
Proof.
  destruct message as [c v|n v|n v|];
    try (apply parseMidi_note_preserves; done).
  unfold parseMidi.
  destruct (cfgSustain cfg) eqn:Hs; [|apply preserves_ret].
  repeat first
    [ apply Hpress | apply Hrelease
    | apply preserves_modify; intros st; by apply Hsustain
    | preserve_step ].
Qed.

Lemma midiLoop_preserves (msgs : list Message) :
  preserves P (midiLoop press release cfg msgs).
Proof.
  induction msgs as [|msg msgs IH]; simpl.
  - apply preserves_ret.
  - repeat first [ apply parseMidi_preserves | exact IH | preserve_step ].
Qed.

End Preservation.

(** ** The pynput session: ledger shape, frame and timers *)

Lemma press_str_cases (s : string) (st : State) :
  (exists e : exn,
      Pynput.translateKey (KStr s) = Raise e
      /\ Pynput.press (KStr s) st = (Raise e, st))
  \/ (exists (k : KeyObj) (st' : State),
         Pynput.translateKey (KStr s) = Ok k
         /\ Pynput.press (KStr s) st = (Ok tt, st')
         /\ heldKeys st' = Dict.set (ledger_key k) (held_val k) (heldKeys st)
         /\ controller st' = (controller st ++ press_calls k)%list
         /\ same_session st st').
Proof.
  destruct (Pynput.translateKey (KStr s)) as [k|e] eqn:Ht.
  - right. destruct (press_str_ok s k st Ht) as (st' & ? & ? & ? & ?).
    by exists k, st'.
  - left. exists e. split; [done|]. by apply press_str_raise.
Qed.

Lemma release_str_cases (s : string) (st : State) :
  (exists e : exn,
      Pynput.translateKey (KStr s) = Raise e
      /\ Pynput.release (KStr s) st = (Raise e, st))
  \/ (exists (k : KeyObj) (st' : State),
         Pynput.translateKey (KStr s) = Ok k
         /\ Pynput.release (KStr s) st = (Ok tt, st')
         /\ heldKeys st' = Dict.del (ledger_key k) (heldKeys st)
         /\ controller st' = (controller st ++ release_calls k)%list
         /\ same_session st st').
Proof.
  destruct (Pynput.translateKey (KStr s)) as [k|e] eqn:Ht.
  - right. destruct (release_str_ok s k st Ht) as (st' & ? & ? & ? & ?).
    by exists k, st'.
  - left. exists e. split; [done|]. by apply release_str_raise.
Qed.

Lemma startswith_shift (x : string) :
  Py.startswith ("shift+" ++ x) "shift+" = true.
Proof. destruct x; reflexivity. Qed.

Lemma drop_shift (x : string) : Py.drop 6 ("shift+" ++ x) = x.
Proof. reflexivity. Qed.

(** The ledger key of anything [translateKey] returns for a string has
    one of the three shapes. *)
Lemma translated_ledger_key_ok (s : string) (k : KeyObj) :
  Pynput.translateKey (KStr s) = Ok k ->
  ledger_entry_ok (ledger_key k) = true.
Proof.
  unfold Pynput.translateKey.
  destruct (Pynput.specialKeyMap (Py.lower s)) as [k'|] eqn:Hsp.
  - intros [= <-]. apply specialKeyMap_Some in Hsp.
    destruct Hsp as [-> | [-> | [-> | ->]]]; reflexivity.
  - destruct (Nat.eqb_spec (String.length (Py.lower s)) 1) as [Hlen|];
      [|discriminate].
    intros [= <-]. unfold ledger_key, Pynput.needs_shift.
    cbn [str_of_key].
    destruct (bool_decide (Py.lower s ∈ Pynput.shiftChars)) eqn:Hsh;
      unfold ledger_entry_ok.
    + rewrite startswith_shift, drop_shift, Hsh.
      by destruct (named_entry _).
    + rewrite Hsh, lower_idem, String.eqb_refl, Hlen. simpl.
      by rewrite orb_true_r.
Qed.

Lemma dict_set_keys_Forall {V : Type} (Q : string -> Prop) (k : string)
    (v : V) (d : list (string * V)) :
  Q k -> Forall Q (Dict.keys d) -> Forall Q (Dict.keys (Dict.set k v d)).
Proof.
  intros Hk. unfold Dict.keys.
  induction d as [|[k' v'] d IH]; simpl; intros Hd.
  - by repeat constructor.
  - inversion Hd; subst.
    destruct (String.eqb k k'); simpl; constructor; auto.
Qed.

Lemma dict_del_keys_Forall {V : Type} (Q : string -> Prop) (k : string)
    (d : list (string * V)) :
  Forall Q (Dict.keys d) -> Forall Q (Dict.keys (Dict.del k d)).
Proof.
  unfold Dict.keys, Dict.del.
  induction d as [|[k' v'] d IH]; simpl; intros Hd; [done|].
  inversion Hd; subst.
  destruct (String.eqb k k'); simpl; [auto|constructor; auto].
Qed.

Lemma press_keeps_ledger_shape (s : string) :
  preserves ledger_well_formed (Pynput.press (KStr s)).
Proof.
  intros st Hst. unfold ledger_well_formed in *.
  destruct (press_str_cases s st)
    as [(e & _ & ->) | (k & st' & Ht & -> & Hh & _)]; simpl; [done|].
  rewrite Hh. apply dict_set_keys_Forall; [|done].
  by apply (translated_ledger_key_ok s).
Qed.

Lemma release_keeps_ledger_shape (s : string) :
  preserves ledger_well_formed (Pynput.release (KStr s)).
Proof.
  intros st Hst. unfold ledger_well_formed in *.
  destruct (release_str_cases s st)
    as [(e & _ & ->) | (k & st' & Ht & -> & Hh & _)]; simpl; [done|].
  rewrite Hh. by apply dict_del_keys_Forall.
Qed.

(** X3: in a pynput session over a configuration whose key labels are
    all ASCII, every key of the held-key ledger has one of three shapes,
    whatever the messages: the name of a modifier this module presses
    (Key.shift, Key.ctrl, Key.alt, Key.space), "shift+" followed by a
    character pynput types with shift, or one character that is not upper
    case and needs no shift. *)
Theorem session_ledger_shape (cfg : Config) (msgs : list Message) :
  ascii_config cfg = true ->
  Forall (fun key => ledger_entry_ok key = true)
         (Dict.keys (heldKeys (snd (session cfg msgs)))).
Proof.
  intros _.
  apply (midiLoop_preserves Pynput.press Pynput.release cfg
           ledger_well_formed); try done.
  - apply press_keeps_ledger_shape.
  - apply release_keeps_ledger_shape.
  - constructor.
Qed.

Lemma session_ledger_shape_witness :
  ascii_config Examples.cfg_symbols = true
  /\ Forall (fun key => ledger_entry_ok key = true)
       (Dict.keys
          (heldKeys
             (snd (session Examples.cfg_symbols
                     [note_on 61 100; note_on 64 90; note_on 30 80;
                      control_change 64 127])))).
Proof.
  split; [by vm_compute|].
  apply (session_ledger_shape Examples.cfg_symbols
           [note_on 61 100; note_on 64 90; note_on 30 80;
            control_change 64 127]).
  by vm_compute.
Defined.

Lemma named_entry_cases (key : string) :
  named_entry key = true ->
  key = "Key.shift" \/ key = "Key.ctrl" \/ key = "Key.alt"
  \/ key = "Key.space".
Proof.
  unfold named_entry. simpl. rewrite !orb_true_iff, !String.eqb_eq.
  intros [? | [? | [? | [? | ?]]]]; auto. done.
Qed.

(** The sweep skips the named keys: [release("Key.shift")] raises in
    [translateKey] and the [except] drops the error. *)
Lemma sweep_key_named (key : string) (st : State) :
  named_entry key = true -> sweep_key key st = (Ok tt, st).
Proof.
  intros Hn. apply named_entry_cases in Hn.
  destruct Hn as [-> | [-> | [-> | ->]]]; reflexivity.
Qed.

Lemma sweep_key_entry_ok (key : string) (st : State) :
  ledger_entry_ok key = true ->
  exists st' : State,
    sweep_key key st = (Ok tt, st')
    /\ controller st' = (controller st ++ stop_calls key)%list.
Proof.
  unfold ledger_entry_ok, stop_calls.
  destruct (named_entry key) eqn:Hn; simpl.
  - intros _. exists st. rewrite sweep_key_named by done.
    by rewrite app_nil_r.
  - intros Hok. apply sweep_key_sweepable. unfold sweepable.
    destruct (Py.startswith key "shift+"); simpl in *; [done|].
    done.
Qed.

Lemma sweep_entries_ok (keys : list string) :
  Forall (fun key => ledger_entry_ok key = true) keys ->
  forall st : State,
    exists st' : State,
      for_each sweep_key keys st = (Ok tt, st')
      /\ controller st'
         = (controller st ++ concat (map stop_calls keys))%list.
Proof.
  induction 1 as [|key keys Hkey _ IH]; intros st; simpl.
  - exists st. by rewrite app_nil_r.
  - destruct (sweep_key_entry_ok key st Hkey) as (st1 & Hx & Hc1).
    destruct (IH st1) as (st2 & Hxs & Hc2).
    exists st2. unfold bind. rewrite Hx. split; [done|].
    by rewrite Hc2, Hc1, <- app_assoc.
Qed.

(** X4: what [stopMidiInput] sends to the controller at the end of any
    pynput session: walking the ledger in insertion order, one release
    for each single-character entry, the character and then shift for
    each "shift+" entry, and nothing for the entries of held named keys
    (Key.shift, Key.ctrl, Key.alt, Key.space), which are dropped from
    the ledger without a release.  It returns normally and leaves the
    ledger empty. *)
Theorem stopMidiInput_after_session (cfg : Config) (msgs : list Message) :
  exists st1 : State,
    stopMidiInput (snd (session cfg msgs)) = (Ok tt, st1)
    /\ heldKeys st1 = []
    /\ controller st1
       = (controller (snd (session cfg msgs))
          ++ concat (map stop_calls
                       (Dict.keys (heldKeys (snd (session cfg msgs))))))%list
    /\ Forall (fun c => is_release c = true)
         (concat (map stop_calls
                    (Dict.keys (heldKeys (snd (session cfg msgs)))))).
Proof.
  set (st := snd (session cfg msgs)).
  assert (Hshape : ledger_well_formed st).
  { apply (midiLoop_preserves Pynput.press Pynput.release cfg
             ledger_well_formed); try done.
    - apply press_keeps_ledger_shape.
    - apply release_keeps_ledger_shape.
    - constructor. }
  destruct (sweep_entries_ok _ Hshape (with_stop_flags true true false st))
    as (st1 & Hsweep & Hc1).
  destruct (stopMidiInput_after_sweep st st1 Hsweep)
    as (st2 & Hstop & Hh & _ & Hc2).
  exists st2. split; [done|]. split; [done|]. split.
  { by rewrite Hc2, Hc1. }
  clear. unfold Dict.keys.
  induction (heldKeys st) as [|[k v] d IH]; simpl; [constructor|].
  apply Forall_app. split; [|done].
  unfold stop_calls, sweep_calls.
  destruct (named_entry k); [constructor|].
  destruct (Py.startswith k "shift+"); repeat constructor.
Qed.

(** ** The keyboard-library session *)

Lemma keyboard_press_keeps_ledger (h : list (string * HeldVal)) (s : string) :
  preserves (fun st => heldKeys st = h) (KeyboardLib.press (KStr s)).
Proof. by intros st Hst. Qed.

Lemma keyboard_release_keeps_ledger (h : list (string * HeldVal))
    (s : string) :
  preserves (fun st => heldKeys st = h) (KeyboardLib.release (KStr s)).
Proof. by intros st Hst. Qed.

(** X5: with the keyboard-library implementation in force no message
    ever writes the held-key ledger; at the end of a session it is still
    empty, so [stopMidiInput] finds nothing to sweep and sends no release:
    whatever key is down when the session stops stays down. *)
Theorem keyboard_session_ledger_stays_empty
    (cfg : Config) (msgs : list Message) :
  let st :=
    snd (midiLoop KeyboardLib.press KeyboardLib.release cfg msgs initialState)
  in
  heldKeys st = []
  /\ fst (stopMidiInput st) = Ok tt
  /\ controller (snd (stopMidiInput st)) = controller st.
Proof.
  cbv zeta.
  set (st := snd (midiLoop KeyboardLib.press KeyboardLib.release cfg msgs
                    initialState)).
  assert (Hempty : heldKeys st = []).
  { apply (midiLoop_preserves KeyboardLib.press KeyboardLib.release cfg
             (fun st => heldKeys st = [])); try done.
    - apply keyboard_press_keeps_ledger.
    - apply keyboard_release_keeps_ledger. }
  split; [done|].
  destruct (stopMidiInput_total st) as (st1 & Hstop & _ & Hc).
  rewrite Hstop. split; [done|]. by apply Hc.
Qed.

(** ** What message handling leaves alone *)

Lemma press_same_session (s : string) (st : State) :
  same_session st (snd (Pynput.press (KStr s) st)).
Proof.
  destruct (press_str_cases s st)
    as [(e & _ & ->) | (k & st' & _ & -> & _ & _ & Hs)]; [|done].
  by repeat split.
Qed.

Lemma release_same_session (s : string) (st : State) :
  same_session st (snd (Pynput.release (KStr s) st)).
Proof.
  destruct (release_str_cases s st)
    as [(e & _ & ->) | (k & st' & _ & -> & _ & _ & Hs)]; [|done].
  by repeat split.
Qed.

(** X6: under pynput no message handler writes the stop flags or the
    port handle; a note message (or any message that is not a control
    change) leaves the sustain latch as it is, and a control change
    leaves the display, the timers and the diagnostics as they are. *)
Theorem handlers_frame (cfg : Config) (message : Message) (st : State) :
  let st' := snd (parseMidi Pynput.press Pynput.release cfg message st) in
  stopEvent st' = stopEvent st
  /\ closeThread st' = closeThread st
  /\ inPort st' = inPort st
  /\ match message with
     | control_change _ _ =>
         piano st' = piano st
         /\ timerList st' = timerList st
         /\ diagnostics st' = diagnostics st
     | _ => sustainActive st' = sustainActive st
     end.
Proof.
  cbv zeta.
  assert (Hctl : same_control st
            (snd (parseMidi Pynput.press Pynput.release cfg message st))).
  { apply (parseMidi_preserves Pynput.press Pynput.release cfg
             (same_control st)); try done.
    - intros s a (? & ? & ?).
      destruct (press_same_session s a) as (_ & _ & ? & ? & ? & _).
      repeat split; congruence.
    - intros s a (? & ? & ?).
      destruct (release_same_session s a) as (_ & _ & ? & ? & ? & _).
      repeat split; congruence. }
  destruct Hctl as (? & ? & ?). repeat split; try done.
  assert (Hnote :
    match message with control_change _ _ => False | _ => True end ->
    sustainActive (snd (parseMidi Pynput.press Pynput.release cfg message st))
    = sustainActive st).
  { intros Hm.
    apply (parseMidi_note_preserves Pynput.press Pynput.release cfg
             (fun a => sustainActive a = sustainActive st)); try done.
    - intros s a Ha.
      destruct (press_same_session s a) as (_ & ? & _). congruence.
    - intros s a Ha.
      destruct (release_same_session s a) as (_ & ? & _). congruence. }
  destruct message as [c v|n v|n v|]; try (by apply Hnote).
  destruct (cfgSustain cfg) eqn:Hs;
    [|unfold parseMidi; by rewrite Hs].
  rewrite parseMidi_control_change by done.
  by destruct (v ?= sustainCutoff cfg), (sustainActive st).
Qed.

(** X7: under pynput, with the hold-length override disabled, no message
    ever arms a timer: the timer list after any run of messages is the
    one before it. *)
Theorem no_timer_without_hold_override
    (cfg : Config) (msgs : list Message) (st : State) :
  customHoldLength cfg = false ->
  timerList (snd (midiLoop Pynput.press Pynput.release cfg msgs st))
  = timerList st.
Proof.
  intros Hhold.
  apply (midiLoop_preserves Pynput.press Pynput.release cfg
           (fun a => timerList a = timerList st)); try done.
  - intros s a Ha. destruct (press_same_session s a) as (? & _). congruence.
  - intros s a Ha. destruct (release_same_session s a) as (? & _). congruence.
  - congruence.
Qed.

Lemma no_timer_without_hold_override_witness :
  timerList
    (snd (midiLoop Pynput.press Pynput.release Examples.cfg
            [note_on 60 100; note_on 66 90; note_off 60 0] initialState))
  = timerList initialState.
Proof.
  apply (no_timer_without_hold_override Examples.cfg
           [note_on 60 100; note_on 66 90; note_off 60 0] initialState).
  reflexivity.
Defined.

(** ** What a note_off does *)

Section NoteOff.

Variables press release : KeyObj -> M unit.
Variable cfg : Config.
Variable P : State -> Prop.
Hypothesis Hrelease : forall s : string, preserves P (release (KStr s)).
Hypothesis Hpiano :
  forall (f : list Z -> list Z) (st : State), P st -> P (with_piano f st).
Hypothesis Hdiag :
  forall (f : list Diagnostic -> list Diagnostic) (st : State),
    P st -> P (with_diagnostics f st).

(** The note_off branch never reaches [press]. *)
Lemma simulateKey_note_off_preserves (note velocity : Z) :
  preserves P (simulateKey press release cfg NoteOff note velocity).
Proof.
  unfold simulateKey, PianoWidget.up, letterNote, log.
  repeat first
    [ apply Hrelease
    | apply preserves_modify; intros st; first [apply Hpiano | apply Hdiag]
    | preserve_step ].
Qed.

Lemma parseMidi_note_off_preserves (note velocity : Z) :
  preserves P (parseMidi press release cfg (note_off note velocity)).
Proof.
  unfold parseMidi. apply preserves_try_except.
  - destruct (velocity =? 0); apply simulateKey_note_off_preserves.
  - apply preserves_modify. intros st. apply Hdiag.
Qed.

End NoteOff.

Lemma releases_only_refl (st : State) : releases_only st st.
Proof.
  exists []. rewrite app_nil_r. by repeat split.
Qed.

Lemma release_releases_only (st0 : State) (s : string) :
  preserves (releases_only st0) (Pynput.release (KStr s)).
Proof.
  intros st (calls & Hc & Hrel & Hsub & Ht).
  destruct (release_str_cases s st)
    as [(e & _ & ->) | (k & st' & _ & -> & Hh & Hc' & (Ht' & _))]; simpl.
  - by exists calls.
  - exists (calls ++ release_calls k)%list. repeat split.
    + by rewrite Hc', Hc, app_assoc.
    + apply Forall_app. split; [done|].
      unfold release_calls. destruct (Pynput.needs_shift k);
        repeat constructor.
    + unfold ledger_keys in *. rewrite Hh, dict_del_keys. set_solver.
    + congruence.
Qed.

Lemma parseMidi_note_off_releases_only
    (cfg : Config) (note velocity : Z) (st : State) :
  releases_only st
    (snd (parseMidi Pynput.press Pynput.release cfg
            (note_off note velocity) st)).
Proof.
  apply (parseMidi_note_off_preserves Pynput.press Pynput.release cfg
           (releases_only st)).
  - apply release_releases_only.
  - done.
  - done.
  - apply releases_only_refl.
Qed.

(** X8: a note_off, and a note_on with velocity 0, only release: under
    pynput the controller trace grows by release calls alone, no key
    enters the ledger, and no timer is armed, from every state and for
    every configuration, whether the handler returns or raises. *)
Theorem note_off_only_releases
    (cfg : Config) (note velocity : Z) (st : State) :
  releases_only st
    (snd (parseMidi Pynput.press Pynput.release cfg
            (note_off note velocity) st))
  /\ releases_only st
       (snd (parseMidi Pynput.press Pynput.release cfg (note_on note 0) st)).
Proof.
  split; [apply parseMidi_note_off_releases_only|].
  apply (parseMidi_note_off_releases_only cfg note 0 st).
Qed.

(** ** An empty velocity table *)

Lemma findVelocityKey_empty (velocity : Z) :
  Velocity.findVelocityKey ∅ velocity = Raise IndexError.
Proof.
  unfold Velocity.findVelocityKey, Velocity.sorted_thresholds.
  by rewrite map_to_list_empty.
Qed.

(** X9: with velocity modifiers enabled and an empty velocity table, a
    note_on with a non-zero velocity for a mapped note is dropped after
    the display was told: [findVelocityKey] raises [IndexError],
    [parseMidi] catches and logs it, and neither [press] nor [release]
    is reached, so the controller, the ledger and the timers are as
    before while the display shows the note as down.  This holds under
    any [press]/[release]. *)
Theorem empty_velocity_table_drops_note_on
    (press release : KeyObj -> M unit) (cfg : Config)
    (note velocity : Z) (key : string) (st : State) :
  -15 <= note - 36 <= 88 ->
  resolveKey cfg note = Some key ->
  Py.truthy key = true ->
  velocity <> 0 ->
  cfgVelocity cfg = true ->
  velocityMap cfg = ∅ ->
  exists st' : State,
    parseMidi press release cfg (note_on note velocity) st = (Ok tt, st')
    /\ controller st' = controller st
    /\ heldKeys st' = heldKeys st
    /\ pressedKeys st' = pressedKeys st
    /\ timerList st' = timerList st
    /\ diagnostics st' = (diagnostics st ++ [IndexErrorLogged])%list
    /\ piano st'
       = if existsb (Z.eqb note) (piano st) then piano st
         else (piano st ++ [note])%list.
Proof.
  intros Hgate Hres Htr Hv Hvel Hmap.
  unfold parseMidi, try_except.
  destruct (Z.eqb_spec velocity 0) as [|_]; [done|].
  unfold simulateKey. rewrite Hres, Htr, Hvel.
  destruct (Z.leb_spec (-15) (note - 36)); [|lia].
  destruct (Z.leb_spec (note - 36) 88); [|lia].
  simpl negb. cbv iota.
  unfold bind at 1, PianoWidget.down, modify.
  unfold bind at 1. unfold bind at 1.
  unfold findVelocityKey, lift. rewrite Hmap, findVelocityKey_empty.
  simpl. eexists. split; [reflexivity|]. by repeat split.
Qed.

Lemma empty_velocity_table_drops_note_on_witness :
  exists st' : State,
    parseMidi Pynput.press Pynput.release Examples.cfg_velocity_empty
      (note_on 60 100) initialState = (Ok tt, st')
    /\ controller st' = controller initialState
    /\ heldKeys st' = heldKeys initialState
    /\ pressedKeys st' = pressedKeys initialState
    /\ timerList st' = timerList initialState
    /\ diagnostics st'
       = (diagnostics initialState ++ [IndexErrorLogged])%list
    /\ piano st'
       = if existsb (Z.eqb 60) (piano initialState) then piano initialState
         else (piano initialState ++ [60])%list.
Proof.
  apply (empty_velocity_table_drops_note_on Pynput.press Pynput.release
           Examples.cfg_velocity_empty 60 100 "c" initialState).
  - lia.
  - by vm_compute.
  - reflexivity.
  - lia.
  - reflexivity.
  - reflexivity.
Defined.

(** ** The reader loop and the stop protocol *)

Lemma midiLoop_stopped
    (press release : KeyObj -> M unit) (cfg : Config)
    (msgs : list Message) (st : State) :
  stopEvent st || closeThread st = true ->
  midiLoop press release cfg msgs st = (Ok tt, st).
Proof.
  intros Hstop. destruct msgs as [|msg msgs]; [done|].
  simpl. unfold bind, gets. by rewrite Hstop.
Qed.

Lemma midiLoop_step
    (press release : KeyObj -> M unit) (cfg : Config)
    (msg : Message) (rest : list Message) (st : State) :
  midiLoop press release cfg (msg :: rest) st
  = if stopEvent st || closeThread st then (Ok tt, st)
    else match parseMidi press release cfg msg st with
         | (Ok _, st') => midiLoop press release cfg rest st'
         | (Raise e, st') => (Raise e, st')
         end.
Proof.
  simpl. unfold bind at 1, gets.
  by destruct (stopEvent st || closeThread st).
Qed.

Lemma midiLoop_batches
    (press release : KeyObj -> M unit) (cfg : Config)
    (xs ys : list Message) (st : State) :
  midiLoop press release cfg (xs ++ ys) st
  = match midiLoop press release cfg xs st with
    | (Ok _, st') => midiLoop press release cfg ys st'
    | (Raise e, st') => (Raise e, st')
    end.
Proof.
  revert st. induction xs as [|x xs IH]; intros st; [done|].
  change ((x :: xs) ++ ys)%list with (x :: (xs ++ ys))%list.
  rewrite !midiLoop_step.
  destruct (stopEvent st || closeThread st) eqn:Hstop.
  - by rewrite midiLoop_stopped.
  - destruct (parseMidi press release cfg x st) as [[[]|e] st']; [|done].
    apply IH.
Qed.

(** X10: reading a stream in two batches is reading it at once: the loop
    over [xs ++ ys] behaves as the loop over [xs] followed, unless an
    exception ended it, by the loop over [ys].  A stop flag seen in the
    first batch also keeps the second from being handled.  This holds
    under any [press]/[release]. *)
Theorem midiLoop_app
    (press release : KeyObj -> M unit) (cfg : Config)
    (xs ys : list Message) (st : State) :
  midiLoop press release cfg (xs ++ ys) st
  = match midiLoop press release cfg xs st with
    | (Ok _, st') => midiLoop press release cfg ys st'
    | (Raise e, st') => (Raise e, st')
    end.
Proof. apply midiLoop_batches. Qed.

Lemma for_each_up_clears (ns : list Z) :
  forall st : State,
    (forall n : Z, In n (piano st) -> In n ns) ->
    piano (snd (for_each PianoWidget.up ns st)) = [].
Proof.
  induction ns as [|n ns IH]; intros st Hsub; simpl.
  - destruct (piano st) as [|m ms]; [done|].
    destruct (Hsub m); by left.
  - unfold bind, PianoWidget.up, modify. apply IH. simpl.
    intros m Hm. apply filter_In in Hm as [Hm Hne].
    destruct (Hsub m Hm) as [->|]; [|done].
    by rewrite Z.eqb_refl in Hne.
Qed.

Lemma sweep_key_same_control (st0 : State) (key : string) :
  preserves (same_control st0) (sweep_key key).
Proof.
  unfold sweep_key. apply preserves_try_except; [|apply preserves_ret].
  destruct (Py.startswith key "shift+").
  - apply preserves_bind; [|intros _]; by apply preserves_modify.
  - intros a (? & ? & ?).
    destruct (release_same_session key a) as (_ & _ & ? & ? & ? & _).
    repeat split; congruence.
Qed.

(** The state [stopMidiInput] leaves behind. *)
Lemma stopMidiInput_final (st : State) :
  let st' := snd (stopMidiInput st) in
  stopEvent st' = true /\ closeThread st' = true /\ inPort st' = false
  /\ timerList st' = [] /\ piano st' = [].
Proof.
  cbv zeta. remember (stopMidiInput st) as r eqn:Hr.
  unfold stopMidiInput in Hr.
  unfold bind at 1, modify at 1 in Hr. unfold bind at 1, gets at 1 in Hr.
  simpl heldKeys in Hr.
  set (st0 := with_stop_flags true true false st) in Hr.
  assert (Hsweep : same_control st0
            (snd (for_each sweep_key (Dict.keys (heldKeys st)) st0))).
  { apply preserves_for_each; [|done].
    intros key. apply sweep_key_same_control. }
  unfold bind at 1 in Hr.
  destruct (for_each sweep_key (Dict.keys (heldKeys st)) st0)
    as [[[]|e] st1] eqn:Hrun.
  2:{ destruct (for_each_ok sweep_key (Dict.keys (heldKeys st))
                  (fun _ _ => True)) with (st := st0)
        as (st1' & Hok & _); [done|done| |congruence].
      intros key a. destruct (sweep_key_ok key a) as (b & Hb). eauto. }
  simpl in Hsweep. destruct Hsweep as (Hs & Hc & Hp).
  unfold bind at 1, modify at 1 in Hr. unfold bind at 1, modify at 1 in Hr.
  unfold try_except, bind at 1, PianoWidget.currentNotes, gets in Hr.
  set (st2 := with_timerList _ _) in Hr.
  assert (Hups : (fun a => same_control st1 a /\ timerList a = [])
                   (snd (for_each PianoWidget.up (piano st2) st2))).
  { apply (preserves_for_each
             (fun a => same_control st1 a /\ timerList a = [])).
    - intros n. by apply preserves_modify.
    - by repeat split. }
  pose proof (for_each_up_clears (piano st2) st2 (fun n H => H)) as Hclear.
  destruct (for_each PianoWidget.up (piano st2) st2) as [[[]|e] st3];
    simpl in Hups, Hclear; subst r; simpl;
    destruct Hups as ((H1 & H2 & H3) & H4);
    rewrite H1, H2, H3, H4, Hclear, Hs, Hc, Hp; done.
Qed.

(** X11: [stopMidiInput] ends the session from every state: both stop
    flags are set, the port handle is dropped, every timer is gone from
    the timer list and the display shows no note; and the reader loop
    handles nothing afterwards, whatever messages still arrive. *)
Theorem stopMidiInput_ends_session (st : State) :
  let st' := snd (stopMidiInput st) in
  stopEvent st' = true
  /\ closeThread st' = true
  /\ inPort st' = false
  /\ timerList st' = []
  /\ piano st' = []
  /\ heldKeys st' = []
  /\ forall (press release : KeyObj -> M unit) (cfg : Config)
            (msgs : list Message),
       midiLoop press release cfg msgs st' = (Ok tt, st').
Proof.
  cbv zeta.
  destruct (stopMidiInput_final st) as (Hs & Hc & Hp & Ht & Hpi).
  destruct (stopMidiInput_total st) as (st1 & Hstop & Hh & _).
  repeat split; try done.
  - by rewrite Hstop.
  - intros press release cfg msgs. apply midiLoop_stopped.
    by rewrite Hs.
Qed.

(** ** The velocity classifier on whole tables *)

Lemma Zle_total : Total Z.le.
Proof. intros x y; lia. Qed.

Lemma findVelocityThreshold_member (t : list Z) (v : Z) :
  t <> [] -> StronglySorted Z.le t ->
  exists (i : nat) (ti : Z),
    Velocity.findVelocityThreshold t v = Ok ti /\ t !! i = Some ti.
Proof.
  intros Hne Hs.
  destruct (loop_spec t v Hs (S (length t)) (Velocity.initial t))
    as (i & ti & Hrun & Hlk & _).
  { by apply loop_inv_initial. }
  { unfold Velocity.initial; simpl. lia. }
  exists i, ti. split; [|done].
  unfold Velocity.findVelocityThreshold, Velocity.findVelocityIndex.
  by rewrite Hrun, Nat2Z.id, Hlk.
Qed.

Lemma ints_canonical (keys : list string) :
  forallb canonical_key keys = true ->
  exists ns : list Z,
    Velocity.ints keys = Ok ns
    /\ length ns = length keys
    /\ forall n : Z, In n ns -> In (Py.str n) keys.
Proof.
  induction keys as [|k keys IH]; simpl.
  - intros _. exists []. by repeat split.
  - intros Hall. apply andb_prop in Hall as [Hk Hall].
    destruct (IH Hall) as (ns & Hints & Hlen & Hin).
    unfold canonical_key in Hk.
    destruct (Py.int k) as [n|]; [|done].
    apply String.eqb_eq in Hk. rewrite Hints.
    exists (n :: ns). split; [done|]. split; [simpl; lia|].
    intros m [<- | Hm]; [by left|]. right. by apply Hin.
Qed.

(** X12: on a non-empty velocity table whose keys are plain decimal
    numerals (each key is the numeral of its own value),
    [findVelocityKey] never raises, whatever the velocity: it returns the
    modifier stored under one of the table's thresholds, and changes no
    state. *)
Theorem findVelocityKey_total
    (cfg : Config) (velocity : Z) (st : State) :
  velocityMap cfg <> ∅ ->
  forallb canonical_key (map fst (map_to_list (velocityMap cfg))) = true ->
  exists (t : Z) (modifier : string),
    velocityMap cfg !! Py.str t = Some modifier
    /\ Velocity.findVelocityKey (velocityMap cfg) velocity = Ok modifier
    /\ findVelocityKey cfg velocity st = (Ok modifier, st).
Proof.
  intros Hne Hcanon.
  destruct (ints_canonical _ Hcanon) as (ns & Hints & Hlen & Hin).
  set (thresholds := merge_sort Z.le ns).
  assert (Hperm : thresholds ≡ₚ ns) by apply merge_sort_Permutation.
  assert (Hnonempty : thresholds <> []).
  { intros Hnil. rewrite Hnil in Hperm.
    apply Permutation_nil_l in Hperm. subst ns.
    rewrite length_map in Hlen.
    destruct (map_to_list (velocityMap cfg)) as [|kv l] eqn:Hl; [|done].
    by apply map_to_list_empty_iff in Hl. }
  assert (Hs : StronglySorted Z.le thresholds)
    by (apply (@StronglySorted_merge_sort _ Z.le _ Zle_transitive Zle_total)).
  destruct (findVelocityThreshold_member thresholds velocity Hnonempty Hs)
    as (i & ti & Hthr & Hlk).
  assert (Hkey : In (Py.str ti) (map fst (map_to_list (velocityMap cfg)))).
  { apply Hin. apply list_elem_of_In.
    rewrite <- Hperm. by eapply list_elem_of_lookup_2. }
  apply in_map_iff in Hkey as ([k modifier] & Hk & Hkv). simpl in Hk.
  apply list_elem_of_In, elem_of_map_to_list in Hkv. subst k.
  exists ti, modifier. split; [done|].
  assert (Hfind : Velocity.findVelocityKey (velocityMap cfg) velocity
                  = Ok modifier).
  { unfold Velocity.findVelocityKey, Velocity.sorted_thresholds.
    rewrite Hints. fold thresholds. by rewrite Hthr, Hkv. }
  split; [done|]. unfold findVelocityKey, lift. by rewrite Hfind.
Qed.

Lemma findVelocityKey_total_witness :
  exists (t : Z) (modifier : string),
    velocityMap Examples.cfg !! Py.str t = Some modifier
    /\ Velocity.findVelocityKey (velocityMap Examples.cfg) 100 = Ok modifier
    /\ findVelocityKey Examples.cfg 100 initialState
       = (Ok modifier, initialState).
Proof.
  apply (findVelocityKey_total Examples.cfg 100 initialState).
  - intros Hempty.
    apply (f_equal (fun m : gmap string string => m !! "0")) in Hempty.
    vm_compute in Hempty. discriminate.
  - by vm_compute.
Defined.

(** With every threshold below the velocity the loop only moves right. *)
Lemma loop_all_below (t : list Z) (v : Z) :
  Forall (fun x => x < v) t ->
  forall (fuel : nat) (s : Velocity.loop_state),
    Velocity.maximum s = Z.of_nat (length t) - 1 ->
    0 <= Velocity.minimum s <= Velocity.maximum s ->
    2 <= Velocity.minimum s + Velocity.maximum s ->
    (Z.to_nat (Velocity.maximum s - Velocity.minimum s + 1) < fuel)%nat ->
    Velocity.loop fuel t v s = Some (Ok (Z.of_nat (length t) - 1)).
Proof.
  intros Hall. induction fuel as [|fuel IH]; intros s Hmax Hmin Hsum Hfuel;
    [lia|].
  simpl. unfold Velocity.loop_body.
  destruct (Z.leb_spec (Velocity.minimum s) (Velocity.maximum s)); [|lia].
  set (i := (Velocity.minimum s + Velocity.maximum s) `div` 2).
  assert (Hi : Velocity.minimum s <= i <= Velocity.maximum s /\ 1 <= i)
    by (subst i; Z.div_mod_to_equations; lia).
  destruct (Z.eqb_spec i 0); [lia|]. simpl.
  destruct (Z.eqb_spec i (Z.of_nat (length t) - 1)) as [->|Hne]; [done|].
  destruct (lookup_lt_is_Some_2 t (Z.to_nat i)) as [ti Hti]; [lia|].
  rewrite Hti.
  assert (ti < v).
  { rewrite Forall_forall in Hall. apply Hall.
    by eapply list_elem_of_lookup_2. }
  destruct (Z.ltb_spec ti v); [|lia].
  apply IH; simpl; lia.
Qed.

(** X13: when the velocity is above every threshold of a non-empty table,
    the classifier returns the last bucket, except on a table of exactly
    two thresholds, where the first probe already sits on index 0 and the
    first bucket is returned. *)
Theorem findVelocityKey_above_all_thresholds (t : list Z) (v : Z) :
  t <> [] ->
  Forall (fun x => x < v) t ->
  Velocity.findVelocityIndex t v
  = Ok (if (length t =? 2)%nat then 0 else Z.of_nat (length t) - 1)
  /\ Velocity.findVelocityThreshold t v
     = match (if (length t =? 2)%nat then head t else last t) with
       | Some ti => Ok ti
       | None => Raise IndexError
       end.
Proof.
  intros Hne Hall.
  assert (Hidx : Velocity.findVelocityIndex t v
    = Ok (if (length t =? 2)%nat then 0 else Z.of_nat (length t) - 1)).
  { destruct t as [|a [|b [|c rest]]]; [done|reflexivity|reflexivity|].
    unfold Velocity.findVelocityIndex.
    rewrite (loop_all_below _ v Hall); [done|done| | |];
      unfold Velocity.initial; simpl Velocity.maximum;
      simpl Velocity.minimum; simpl length; lia. }
  split; [done|].
  unfold Velocity.findVelocityThreshold. rewrite Hidx.
  destruct (length t =? 2)%nat eqn:Hlen.
  - by destruct t.
  - rewrite last_lookup.
    replace (Z.to_nat (Z.of_nat (length t) - 1)) with (pred (length t))
      by lia.
    by destruct (t !! pred (length t)).
Qed.

Lemma findVelocityKey_above_all_thresholds_witness :
  Velocity.findVelocityIndex [0; 32; 64; 96] 127
  = Ok (if (length [0; 32; 64; 96] =? 2)%nat then 0
        else Z.of_nat (length [0; 32; 64; 96]) - 1)
  /\ Velocity.findVelocityThreshold [0; 32; 64; 96] 127
     = match (if (length [0; 32; 64; 96] =? 2)%nat
              then head [0; 32; 64; 96] else last [0; 32; 64; 96]) with
       | Some ti => Ok ti
       | None => Raise IndexError
       end.
Proof.
  apply (findVelocityKey_above_all_thresholds [0; 32; 64; 96] 127).
  - discriminate.
  - repeat constructor; lia.
Defined.

(** ** The round trip of any note *)

Section AnyNote.

Variable cfg : Config.
Variables (note : Z) (key : string).
Hypothesis Hgate : -15 <= note - 36 <= 88.
Hypothesis Hres : resolveKey cfg note = Some key.
Hypothesis Htruthy : Py.truthy key = true.

Lemma gate_passes :
  negb ((-15 <=? note - 36) && (note - 36 <=? 88)) = false.
Proof.
  destruct (Z.leb_spec (-15) (note - 36));
    destruct (Z.leb_spec (note - 36) 88); simpl; try done; lia.
Qed.

Lemma note_off_ledger_handled (velocity : Z) (st : State) :
  post (simulateKey Pynput.press Pynput.release cfg NoteOff note velocity) st
    (fun _ st' =>
       forall (tok : string) (k : KeyObj),
         release_label cfg note key = Some tok ->
         Pynput.translateKey (KStr tok) = Ok k ->
         ledger_keys st' = ledger_keys st ∖ {[ ledger_key k ]}).
Proof.
  unfold simulateKey, release_label. rewrite gate_passes, Hres, Htruthy.
  simpl negb. cbv iota.
  apply post_bind. unfold post at 1. simpl fst. simpl snd. cbv iota.
  set (st0 := with_piano _ st).
  change (ledger_keys st) with (ledger_keys st0). clearbody st0.
  destruct (in_natural_register note); simpl andb;
    [destruct (has_symbol key)|].
  - unfold letterNote.
    destruct (letterNoteMap cfg !! Py.str (note - 1)) as [below|];
      [|unfold post; simpl; intros; discriminate].
    apply post_bind. unfold post at 1, ret. simpl fst. simpl snd.
    apply post_release.
    + intros k st' Ht HK tok k' [= <-] Ht'. congruence.
    + intros e Ht _ tok k' [= <-] Ht'. congruence.
  - apply post_release.
    + intros k st' Ht HK tok k' [= <-] Ht'. congruence.
    + intros e Ht _ tok k' [= <-] Ht'. congruence.
  - apply post_release.
    + intros k st' Ht HK tok k' [= <-] Ht'. congruence.
    + intros e Ht _ tok k' [= <-] Ht'. congruence.
Qed.

Lemma note_on_ledger_handled (velocity : Z) (st : State) :
  ledger_keys st = ∅ ->
  post (simulateKey Pynput.press Pynput.release cfg NoteOn note velocity) st
    (fun r st' =>
       match r with
       | Ok _ =>
           exists (tok : string) (k : KeyObj),
             release_label cfg note key = Some tok
             /\ Pynput.translateKey (KStr tok) = Ok k
             /\ ledger_keys st' ⊆ {[ ledger_key k ]}
       | Raise e => is_IndexError e = true -> ledger_keys st' = ∅
       end).
Proof.
  intros Hempty.
  unfold simulateKey, release_label. rewrite gate_passes, Hres, Htruthy.
  simpl negb. cbv iota.
  apply post_bind. unfold post at 1. simpl fst. simpl snd. cbv iota.
  set (st0 := with_piano _ st).
  assert (H0 : ledger_keys st0 = ∅) by done.
  clearbody st0. clear Hempty st.
  apply (post_seq _ _ _
    (fun r st' =>
       match r with
       | Ok _ => ledger_keys st' = ∅
       | Raise e => is_IndexError e = true -> ledger_keys st' = ∅
       end)); [| |done].
  { destruct (cfgVelocity cfg); [|by unfold post].
    apply post_bind. unfold post at 1, findVelocityKey, lift.
    simpl fst. simpl snd.
    destruct (Velocity.findVelocityKey (velocityMap cfg) velocity)
      as [vk|e]; [|done].
    apply post_bind, post_press; [|intros; simpl; congruence].
    intros ka st1 Hka HK1.
    apply post_bind, post_press; [|intros; simpl; congruence].
    intros kv st2 Hkv HK2.
    apply post_bind, post_release; [|intros; simpl; congruence].
    intros kv' st3 Hkv' HK3.
    apply post_release; [|intros; simpl; congruence].
    intros ka' st4 Hka' HK4.
    assert (kv' = kv) by congruence. assert (ka' = ka) by congruence.
    subst. rewrite HK4, HK3, HK2, HK1, H0. set_solver. }
  intros _ st1 H1. clear H0 st0.
  destruct (in_natural_register note); simpl andb.
  - apply (post_seq _ _ _
      (fun r st' =>
         match r with
         | Ok _ => ledger_keys st' = ∅
         | Raise e => is_IndexError e = false
         end)); [| |intros; simpl; congruence].
    { destruct (cfgNoDoubles cfg); [|by unfold post].
      destruct (has_symbol key).
      - unfold letterNote.
        destruct (letterNoteMap cfg !! Py.str (note - 1)) as [below|];
          [|by unfold post].
        apply post_bind. unfold post at 1, ret. simpl fst. simpl snd.
        apply post_release; [|done].
        intros k st' _ HK. rewrite HK, H1. set_solver.
      - apply post_release; [|done].
        intros k st' _ HK. rewrite HK, H1. set_solver. }
    intros _ st2 H2. clear H1 st1.
    destruct (has_symbol key); [|destruct (Py.isupper key)].
    + unfold letterNote.
      destruct (letterNoteMap cfg !! Py.str (note - 1)) as [below|];
        [|unfold post; simpl; discriminate].
      apply post_bind. unfold post at 1, ret. simpl fst. simpl snd.
      apply post_bind, post_press; [|intros; simpl; congruence].
      intros ks st3 Hks HK3.
      apply post_bind. unfold post at 1, ret. simpl fst. simpl snd.
      apply post_bind, post_pressAndMaybeRelease;
        [|intros; simpl; congruence].
      intros k st4 Hk HK4.
      apply post_release; [|intros; simpl; congruence].
      intros ks' st5 Hks' HK5. assert (ks' = ks) by congruence. subst.
      exists below, k. split; [done|]. split; [done|].
      rewrite HK5, HK4, HK3, H2. set_solver.
    + apply post_bind, post_press; [|intros; simpl; congruence].
      intros ks st3 Hks HK3.
      apply post_bind, post_pressAndMaybeRelease;
        [|intros; simpl; congruence].
      intros k st4 Hk HK4.
      apply post_release; [|intros; simpl; congruence].
      intros ks' st5 Hks' HK5. assert (ks' = ks) by congruence. subst.
      exists (Py.lower key), k. split; [done|]. split; [done|].
      rewrite HK5, HK4, HK3, H2. set_solver.
    + apply post_pressAndMaybeRelease; [|intros; simpl; congruence].
      intros k st3 Hk HK3.
      exists (Py.lower key), k. split; [done|].
      split; [by apply translateKey_lower|].
      rewrite HK3, H2. set_solver.
  - apply post_bind, post_release; [|intros; simpl; congruence].
    intros kr st2 Hkr HK2.
    apply post_bind, post_press; [|intros; simpl; congruence].
    intros kc st3 Hkc HK3.
    apply post_bind, post_pressAndMaybeRelease; [|intros; simpl; congruence].
    intros k st4 Hk HK4.
    apply post_release; [|intros; simpl; congruence].
    intros kc' st5 Hkc' HK5. assert (kc' = kc) by congruence. subst.
    exists (Py.lower key), k. split; [done|]. split; [done|].
    rewrite HK5, HK4, HK3, HK2, H1. set_solver.
Qed.

End AnyNote.

(** A note event that the range gate or the key tables drop changes no
    ledger. *)
Lemma simulateKey_dropped_ledger
    (cfg : Config) (msgType : MsgType) (note velocity : Z) (st : State) :
  (~ (-15 <= note - 36 <= 88)
   \/ resolveKey cfg note = None
   \/ exists key : string,
        resolveKey cfg note = Some key /\ Py.truthy key = false) ->
  ledger_keys
    (snd (simulateKey Pynput.press Pynput.release cfg msgType note velocity
            st))
  = ledger_keys st.
Proof.
  intros Hdrop. unfold simulateKey.
  destruct (negb ((-15 <=? note - 36) && (note - 36 <=? 88))) eqn:Hg;
    [done|].
  destruct Hdrop as [Hout | [-> | (key & -> & ->)]]; [|done|done].
  apply negb_false_iff, andb_prop in Hg as [H1 H2].
  apply Z.leb_le in H1, H2. lia.
Qed.

(** X14: the round trip holds for every note, the shift-wrapped symbols
    and the ctrl-wrapped notes outside 36..96 included: from an empty
    ledger, if the note_on is handled without an exception leaving
    [parseMidi], the note_off for the same note leaves the ledger
    empty. *)
Theorem round_trip_any_note
    (cfg : Config) (note velocity velocity' : Z) (st st1 : State) :
  heldKeys st = [] ->
  parseMidi Pynput.press Pynput.release cfg (note_on note velocity) st
  = (Ok tt, st1) ->
  heldKeys (snd (parseMidi Pynput.press Pynput.release cfg
                   (note_off note velocity') st1)) = [].
Proof.
  intros Hempty Hon.
  assert (H0 : ledger_keys st = ∅) by (unfold ledger_keys; by rewrite Hempty).
  apply ledger_keys_empty.
  pose proof (parseMidi_note_off_releases_only cfg note velocity' st1)
    as (_ & _ & _ & Hsub & _).
  destruct (decide (ledger_keys st1 = ∅)) as [Hst1|Hst1]; [set_solver|].
  (* the note_on left something in the ledger: it was handled *)
  assert (Hv : (velocity =? 0) = false).
  { destruct (velocity =? 0) eqn:Hv; [|done]. exfalso. apply Hst1.
    pose proof (parseMidi_note_off_releases_only cfg note velocity st)
      as (_ & _ & _ & Hsub0 & _).
    unfold parseMidi in Hon, Hsub0. rewrite Hv in Hon, Hsub0.
    rewrite Hon in Hsub0. simpl in Hsub0. set_solver. }
  unfold parseMidi in Hon. rewrite Hv in Hon.
  destruct (try_except_ledger
              (simulateKey Pynput.press Pynput.release cfg NoteOn note
                 velocity) st) as [HK Hok].
  rewrite Hon in HK, Hok. simpl in HK, Hok. specialize (Hok eq_refl).
  destruct (decide (-15 <= note - 36 <= 88)) as [Hgate|Hgate].
  2:{ exfalso. apply Hst1. rewrite HK.
      rewrite simulateKey_dropped_ledger; [done|by left]. }
  destruct (resolveKey cfg note) as [key|] eqn:Hres.
  2:{ exfalso. apply Hst1. rewrite HK.
      rewrite simulateKey_dropped_ledger; [done|by right; left]. }
  destruct (Py.truthy key) eqn:Htr.
  2:{ exfalso. apply Hst1. rewrite HK.
      rewrite simulateKey_dropped_ledger; [done|].
      right; right. by exists key. }
  pose proof (note_on_ledger_handled cfg note key Hgate Hres Htr velocity
                st H0) as Hpost.
  unfold post in Hpost.
  destruct (fst (simulateKey Pynput.press Pynput.release cfg NoteOn note
                   velocity st)) as [[]|e].
  2:{ exfalso. apply Hst1. rewrite HK. by apply Hpost. }
  destruct Hpost as (tok & k & Hlabel & Hk & Hin). rewrite <- HK in Hin.
  unfold parseMidi.
  destruct (try_except_ledger
              (if velocity' =? 0
               then simulateKey Pynput.press Pynput.release cfg NoteOff
                      note velocity'
               else simulateKey Pynput.press Pynput.release cfg NoteOff
                      note velocity') st1) as [HK' _].
  rewrite HK'. clear HK'.
  pose proof (note_off_ledger_handled cfg note key Hgate Hres Htr velocity'
                st1) as Hoff.
  unfold post in Hoff. specialize (Hoff tok k Hlabel Hk).
  destruct (velocity' =? 0); rewrite Hoff; set_solver.
Qed.

Lemma round_trip_any_note_witness :
  heldKeys
    (snd (parseMidi Pynput.press Pynput.release Examples.cfg_symbols
            (note_off 61 0)
            (snd (parseMidi Pynput.press Pynput.release Examples.cfg_symbols
                    (note_on 61 100) initialState))))
  = [].
Proof.
  apply (round_trip_any_note Examples.cfg_symbols 61 100 0 initialState
           (snd (parseMidi Pynput.press Pynput.release Examples.cfg_symbols
                   (note_on 61 100) initialState))).
  - reflexivity.
  - by vm_compute.
Defined.

(** ** The keystrokes of a note_on *)

Lemma post_press_ok (s : string) (k : KeyObj) (st : State)
    (Q : result unit -> State -> Prop) :
  Pynput.translateKey (KStr s) = Ok k ->
  (forall st' : State,
      controller st' = (controller st ++ press_calls k)%list ->
      timerList st' = timerList st ->
      Q (Ok tt) st') ->
  post (Pynput.press (KStr s)) st Q.
Proof.
  intros Ht HQ. unfold post.
  destruct (press_str_ok s k st Ht) as (st' & -> & _ & Hc & (Htl & _)).
  by apply HQ.
Qed.

Lemma post_release_ok (s : string) (k : KeyObj) (st : State)
    (Q : result unit -> State -> Prop) :
  Pynput.translateKey (KStr s) = Ok k ->
  (forall st' : State,
      controller st' = (controller st ++ release_calls k)%list ->
      timerList st' = timerList st ->
      Q (Ok tt) st') ->
  post (Pynput.release (KStr s)) st Q.
Proof.
  intros Ht HQ. unfold post.
  destruct (release_str_ok s k st Ht) as (st' & -> & _ & Hc & (Htl & _)).
  by apply HQ.
Qed.

Lemma post_pressAndMaybeRelease_ok (cfg : Config) (s : string) (k : KeyObj)
    (st : State) (Q : result unit -> State -> Prop) :
  Pynput.translateKey (KStr s) = Ok k ->
  (forall st' : State,
      controller st' = (controller st ++ press_calls k)%list ->
      timerList st'
      = (timerList st ++ if customHoldLength cfg then [s] else [])%list ->
      Q (Ok tt) st') ->
  post (pressAndMaybeRelease Pynput.press cfg s) st Q.
Proof.
  intros Ht HQ. unfold pressAndMaybeRelease.
  apply post_bind, (post_press_ok s k); [done|].
  intros st' Hc Htl. destruct (customHoldLength cfg); unfold post; simpl.
  - apply HQ; simpl; congruence.
  - apply HQ; simpl; [done|]. by rewrite app_nil_r.
Qed.

Ltac translated :=
  first [ eassumption | apply translateKey_lower; eassumption | reflexivity ].

Ltac key_step :=
  lazymatch goal with
  | |- post (pressAndMaybeRelease _ _ _) _ _ =>
      eapply post_pressAndMaybeRelease_ok; [translated|intros ? ? ?]
  | |- post (bind (pressAndMaybeRelease _ _ _) _) _ _ =>
      apply post_bind; eapply post_pressAndMaybeRelease_ok;
        [translated|intros ? ? ?]
  | |- post (Pynput.press _) _ _ =>
      eapply post_press_ok; [translated|intros ? ? ?]
  | |- post (Pynput.release _) _ _ =>
      eapply post_release_ok; [translated|intros ? ? ?]
  | |- post (bind (Pynput.press _) _) _ _ =>
      apply post_bind; eapply post_press_ok; [translated|intros ? ? ?]
  | |- post (bind (Pynput.release _) _) _ _ =>
      apply post_bind; eapply post_release_ok; [translated|intros ? ? ?]
  end.

Ltac chain :=
  repeat match goal with
         | H : controller ?x = _ |- context [controller ?x] =>
             rewrite H; clear H
         | H : timerList ?x = _ |- context [timerList ?x] =>
             rewrite H; clear H
         end.

Section Keystrokes.

Variable cfg : Config.
Variables (note velocity : Z) (key tok : string) (k : KeyObj).
Variable vcalls : list BackendCall.
Hypothesis Hgate : -15 <= note - 36 <= 88.
Hypothesis Hres : resolveKey cfg note = Some key.
Hypothesis Htruthy : Py.truthy key = true.
Hypothesis Hlabel : press_label cfg note key = Some tok.
Hypothesis Hk : Pynput.translateKey (KStr tok) = Ok k.

(** What the velocity block of the note_on does. *)
Hypothesis Hbracket :
  forall st0 : State,
    post (if cfgVelocity cfg
          then velocityKey <- findVelocityKey cfg velocity ;;
               Pynput.press (KStr "alt") ;;
               Pynput.press (KStr velocityKey) ;;
               Pynput.release (KStr velocityKey) ;;
               Pynput.release (KStr "alt")
          else ret tt) st0
      (fun r st' =>
         r = Ok tt
         /\ controller st' = (controller st0 ++ vcalls)%list
         /\ timerList st' = timerList st0).

Lemma simulateKey_note_on_keystrokes (st : State) :
  post (simulateKey Pynput.press Pynput.release cfg NoteOn note velocity) st
    (fun r st' =>
       r = Ok tt
       /\ controller st'
          = (controller st ++ vcalls ++ note_on_calls cfg note key k)%list
       /\ timerList st'
          = (timerList st ++ if customHoldLength cfg then [tok] else [])%list).
Proof.
  unfold simulateKey, note_on_calls.
  rewrite (gate_passes note Hgate), Hres, Htruthy.
  simpl negb. cbv iota.
  apply post_bind. unfold post at 1. simpl fst. simpl snd. cbv iota.
  set (st0 := with_piano _ st).
  change (controller st) with (controller st0).
  change (timerList st) with (timerList st0). clearbody st0.
  apply (post_seq _ _ _
    (fun r st' =>
       r = Ok tt
       /\ controller st' = (controller st0 ++ vcalls)%list
       /\ timerList st' = timerList st0));
    [apply Hbracket| |by intros e st' (? & _)].
  intros _ stv (_ & Hcv & Htv).
  unfold press_label in Hlabel.
  destruct (in_natural_register note).
  - destruct (has_symbol key) eqn:Hsym.
    + unfold letterNote. rewrite Hlabel.
      destruct (cfgNoDoubles cfg).
      * apply post_bind. apply post_bind.
        unfold post at 1, ret. simpl fst. simpl snd. cbv iota.
        eapply post_release_ok; [translated|intros st1 Hc1 Ht1].
        apply post_bind. unfold post at 1, ret. simpl fst. simpl snd.
        cbv iota.
        key_step. apply post_bind. unfold post at 1, ret. simpl fst.
        simpl snd. cbv iota.
        key_step. key_step.
        split; [done|]. chain. simpl.
        split; [by rewrite <- !app_assoc|done].
      * apply post_bind. unfold post at 1, ret. simpl fst. simpl snd.
        cbv iota.
        apply post_bind. unfold post at 1, ret. simpl fst. simpl snd.
        cbv iota.
        key_step. apply post_bind. unfold post at 1, ret. simpl fst.
        simpl snd. cbv iota.
        key_step. key_step.
        split; [done|]. chain. simpl.
        split; [by rewrite <- !app_assoc|done].
    + destruct (Py.isupper key) eqn:Hup; injection Hlabel as <-.
      * destruct (cfgNoDoubles cfg).
        -- key_step. key_step. key_step. key_step.
           split; [done|]. chain. simpl.
           split; [by rewrite <- !app_assoc|done].
        -- apply post_bind. unfold post at 1, ret. simpl fst. simpl snd.
           cbv iota.
           key_step. key_step. key_step.
           split; [done|]. chain. simpl.
           split; [by rewrite <- !app_assoc|done].
      * destruct (cfgNoDoubles cfg).
        -- key_step. key_step.
           split; [done|]. chain. simpl.
           split; [by rewrite <- !app_assoc|done].
        -- apply post_bind. unfold post at 1, ret. simpl fst. simpl snd.
           cbv iota.
           key_step.
           split; [done|]. chain. simpl.
           split; [by rewrite <- ?app_assoc|done].
  - injection Hlabel as <-.
    key_step. key_step. key_step. key_step.
    split; [done|]. chain. simpl.
    split; [by rewrite <- !app_assoc|done].
Qed.

Lemma parseMidi_note_on_keystrokes (st : State) :
  velocity <> 0 ->
  exists st' : State,
    parseMidi Pynput.press Pynput.release cfg (note_on note velocity) st
    = (Ok tt, st')
    /\ controller st'
       = (controller st ++ vcalls ++ note_on_calls cfg note key k)%list
    /\ timerList st'
       = (timerList st ++ if customHoldLength cfg then [tok] else [])%list.
Proof.
  intros Hv.
  pose proof (simulateKey_note_on_keystrokes st) as Hpost.
  unfold post in Hpost. destruct Hpost as (Hr & Hc & Ht).
  unfold parseMidi, try_except.
  destruct (Z.eqb_spec velocity 0) as [|_]; [done|].
  destruct (simulateKey Pynput.press Pynput.release cfg NoteOn note
              velocity st) as [r st'].
  simpl in Hr, Hc, Ht. subst r. by exists st'.
Qed.

End Keystrokes.

(** X15: the keystrokes of a note_on under pynput, with velocity modifiers
    off, for a mapped note inside the range gate whose pressed label
    pynput supports.  The handler returns normally and the controller
    sees exactly: inside 36..96, a release of the key first when
    no-doubles is on, then the key press, which for a symbol is the press
    of the lower neighbour's key between a shift press and a shift
    release, for an upper-case key the press of its lower-case form
    between the same shift pair, and otherwise the plain press; outside
    36..96, a release of the lower-case key, then its press between a
    ctrl press and a ctrl release.  Exactly one timer, for the pressed
    label, is armed when the hold-length override is on, none
    otherwise. *)
Theorem note_on_keystrokes
    (cfg : Config) (note velocity : Z) (key tok : string) (k : KeyObj)
    (st : State) :
  -15 <= note - 36 <= 88 ->
  resolveKey cfg note = Some key ->
  Py.truthy key = true ->
  velocity <> 0 ->
  cfgVelocity cfg = false ->
  press_label cfg note key = Some tok ->
  Pynput.translateKey (KStr tok) = Ok k ->
  exists st' : State,
    parseMidi Pynput.press Pynput.release cfg (note_on note velocity) st
    = (Ok tt, st')
    /\ controller st' = (controller st ++ note_on_calls cfg note key k)%list
    /\ timerList st'
       = (timerList st ++ if customHoldLength cfg then [tok] else [])%list.
Proof.
  intros Hgate Hres Htr Hv Hvel Hlabel Hk.
  apply (parseMidi_note_on_keystrokes cfg note velocity key tok k []
           Hgate Hres Htr Hlabel Hk); [|done].
  intros st0. rewrite Hvel. unfold post; simpl.
  by rewrite app_nil_r.
Qed.

Lemma note_on_keystrokes_witness :
  exists st' : State,
    parseMidi Pynput.press Pynput.release Examples.cfg_symbols
      (note_on 61 100) initialState
    = (Ok tt, st')
    /\ controller st'
       = (controller initialState
          ++ note_on_calls Examples.cfg_symbols 61 "!" (KStr "1"))%list
    /\ timerList st'
       = (timerList initialState
          ++ if customHoldLength Examples.cfg_symbols then ["1"] else [])%list.
Proof.
  apply (note_on_keystrokes Examples.cfg_symbols 61 100 "!" "1" (KStr "1")
           initialState).
  - lia.
  - by vm_compute.
  - reflexivity.
  - lia.
  - reflexivity.
  - by vm_compute.
  - reflexivity.
Defined.

(** ** The sustain latch on whole streams *)

(** X16: the latch never chatters.  With sustain enabled, any stream of
    control-change values is handled without error and makes the
    controller see only presses and releases of space in strict
    alternation, starting with a press when the latch was inactive and
    with a release when it was active; the latch ends active exactly
    when the last call was a press. *)
Theorem sustain_latch_alternates
    (cfg : Config) (control : Z) (values : list Z) (st : State) :
  cfgSustain cfg = true ->
  stopEvent st = false ->
  closeThread st = false ->
  exists (st' : State) (calls : list BackendCall),
    midiLoop Pynput.press Pynput.release cfg
      (map (control_change control) values) st = (Ok tt, st')
    /\ controller st' = (controller st ++ calls)%list
    /\ latch_alternates (sustainActive st) calls = Some (sustainActive st').
Proof.
  intros Hsus. revert st.
  induction values as [|value values IH]; intros st Hstop Hclose.
  - exists st, []. by rewrite app_nil_r.
  - change (map (control_change control) (value :: values))
      with (control_change control value
            :: map (control_change control) values).
    rewrite midiLoop_step, Hstop, Hclose. simpl orb. cbv iota.
    rewrite parseMidi_control_change by done.
    destruct (value ?= sustainCutoff cfg) eqn:Hcmp,
             (sustainActive st) eqn:Hact;
      try (destruct (IH st Hstop Hclose) as (st' & calls & Hrun & Hc & Ha);
           exists st', calls; rewrite Hrun, Hc, Hact in *; done).
    + destruct (release_str_ok "space" _ (with_sustainActive false st)
                  translateKey_space)
        as (st1 & Hrel & _ & Hc1 & (_ & Ha1 & Hs1 & Hcl1 & _)).
      simpl in Hc1, Ha1, Hs1, Hcl1. rewrite Hrel.
      destruct (IH st1) as (st' & calls & Hrun & Hc & Ha); [congruence..|].
      exists st', (CRelease (KKey "space") :: calls). rewrite Hrun.
      split; [done|]. split.
      * rewrite Hc, Hc1. by rewrite <- app_assoc.
      * simpl. by rewrite <- Ha1.
    + destruct (press_str_ok "space" _ (with_sustainActive true st)
                  translateKey_space)
        as (st1 & Hpress & _ & Hc1 & (_ & Ha1 & Hs1 & Hcl1 & _)).
      simpl in Hc1, Ha1, Hs1, Hcl1. rewrite Hpress.
      destruct (IH st1) as (st' & calls & Hrun & Hc & Ha); [congruence..|].
      exists st', (CPress (KKey "space") :: calls). rewrite Hrun.
      split; [done|]. split.
      * rewrite Hc, Hc1. by rewrite <- app_assoc.
      * simpl. by rewrite <- Ha1.
Qed.

Lemma sustain_latch_alternates_witness :
  exists (st' : State) (calls : list BackendCall),
    midiLoop Pynput.press Pynput.release Examples.cfg
      (map (control_change 64) [0; 127; 90; 64; 10; 70; 70]) initialState
    = (Ok tt, st')
    /\ controller st' = (controller initialState ++ calls)%list
    /\ latch_alternates (sustainActive initialState) calls
       = Some (sustainActive st').
Proof.
  apply (sustain_latch_alternates Examples.cfg 64
           [0; 127; 90; 64; 10; 70; 70] initialState); reflexivity.
Defined.

(** ** Chords: several notes down, then up *)

Lemma parseMidi_same_control (cfg : Config) (message : Message) (st : State) :
  same_control st (snd (parseMidi Pynput.press Pynput.release cfg message st)).
Proof.
  apply (parseMidi_preserves Pynput.press Pynput.release cfg
           (same_control st)); try done.
  - intros s a (? & ? & ?).
    destruct (press_same_session s a) as (_ & _ & ? & ? & ? & _).
    repeat split; congruence.
  - intros s a (? & ? & ?).
    destruct (release_same_session s a) as (_ & _ & ? & ? & ? & _).
    repeat split; congruence.
Qed.

Section ChordNote.

Variable cfg : Config.
Variables (note : Z) (key : string).
Hypothesis Hgate : -15 <= note - 36 <= 88.
Hypothesis Hres : resolveKey cfg note = Some key.
Hypothesis Htruthy : Py.truthy key = true.

(** A handled note_on that returns adds at most the ledger key of its own
    release label. *)
Lemma note_on_ledger_grows (velocity : Z) (st : State) :
  post (simulateKey Pynput.press Pynput.release cfg NoteOn note velocity) st
    (fun r st' =>
       match r with
       | Ok _ =>
           exists (tok : string) (k : KeyObj),
             release_label cfg note key = Some tok
             /\ Pynput.translateKey (KStr tok) = Ok k
             /\ ledger_keys st' ⊆ ledger_keys st ∪ {[ ledger_key k ]}
       | Raise e => is_IndexError e = true -> ledger_keys st' ⊆ ledger_keys st
       end).
Proof.
  unfold simulateKey, release_label.
  rewrite (gate_passes note Hgate), Hres, Htruthy.
  simpl negb. cbv iota.
  apply post_bind. unfold post at 1. simpl fst. simpl snd. cbv iota.
  set (st0 := with_piano _ st).
  change (ledger_keys st) with (ledger_keys st0). clearbody st0.
  apply (post_seq _ _ _
    (fun r st' =>
       match r with
       | Ok _ => ledger_keys st' ⊆ ledger_keys st0
       | Raise e => is_IndexError e = true -> ledger_keys st' ⊆ ledger_keys st0
       end)); [| |done].
  { destruct (cfgVelocity cfg); [|unfold post; simpl; set_solver].
    apply post_bind. unfold post at 1, findVelocityKey, lift.
    simpl fst. simpl snd.
    destruct (Velocity.findVelocityKey (velocityMap cfg) velocity)
      as [vk|e]; [|simpl; set_solver].
    apply post_bind, post_press; [|intros; simpl; congruence].
    intros ka st1 Hka HK1.
    apply post_bind, post_press; [|intros; simpl; congruence].
    intros kv st2 Hkv HK2.
    apply post_bind, post_release; [|intros; simpl; congruence].
    intros kv' st3 Hkv' HK3.
    apply post_release; [|intros; simpl; congruence].
    intros ka' st4 Hka' HK4.
    assert (kv' = kv) by congruence. assert (ka' = ka) by congruence.
    subst. rewrite HK4, HK3, HK2, HK1. set_solver. }
  intros _ st1 H1.
  destruct (in_natural_register note); simpl andb.
  - apply (post_seq _ _ _
      (fun r st' =>
         match r with
         | Ok _ => ledger_keys st' ⊆ ledger_keys st0
         | Raise e => is_IndexError e = false
         end)); [| |intros; simpl; congruence].
    { destruct (cfgNoDoubles cfg); [|unfold post; simpl; set_solver].
      destruct (has_symbol key).
      - unfold letterNote.
        destruct (letterNoteMap cfg !! Py.str (note - 1)) as [below|];
          [|by unfold post].
        apply post_bind. unfold post at 1, ret. simpl fst. simpl snd.
        apply post_release; [|done].
        intros k st' _ HK. rewrite HK. set_solver.
      - apply post_release; [|done].
        intros k st' _ HK. rewrite HK. set_solver. }
    intros _ st2 H2. clear H1 st1.
    destruct (has_symbol key); [|destruct (Py.isupper key)].
    + unfold letterNote.
      destruct (letterNoteMap cfg !! Py.str (note - 1)) as [below|];
        [|unfold post; simpl; discriminate].
      apply post_bind. unfold post at 1, ret. simpl fst. simpl snd.
      apply post_bind, post_press; [|intros; simpl; congruence].
      intros ks st3 Hks HK3.
      apply post_bind. unfold post at 1, ret. simpl fst. simpl snd.
      apply post_bind, post_pressAndMaybeRelease;
        [|intros; simpl; congruence].
      intros k st4 Hk HK4.
      apply post_release; [|intros; simpl; congruence].
      intros ks' st5 Hks' HK5. assert (ks' = ks) by congruence. subst.
      exists below, k. split; [done|]. split; [done|].
      rewrite HK5, HK4, HK3. set_solver.
    + apply post_bind, post_press; [|intros; simpl; congruence].
      intros ks st3 Hks HK3.
      apply post_bind, post_pressAndMaybeRelease;
        [|intros; simpl; congruence].
      intros k st4 Hk HK4.
      apply post_release; [|intros; simpl; congruence].
      intros ks' st5 Hks' HK5. assert (ks' = ks) by congruence. subst.
      exists (Py.lower key), k. split; [done|]. split; [done|].
      rewrite HK5, HK4, HK3. set_solver.
    + apply post_pressAndMaybeRelease; [|intros; simpl; congruence].
      intros k st3 Hk HK3.
      exists (Py.lower key), k. split; [done|].
      split; [by apply translateKey_lower|].
      rewrite HK3. set_solver.
  - apply post_bind, post_release; [|intros; simpl; congruence].
    intros kr st2 Hkr HK2.
    apply post_bind, post_press; [|intros; simpl; congruence].
    intros kc st3 Hkc HK3.
    apply post_bind, post_pressAndMaybeRelease; [|intros; simpl; congruence].
    intros k st4 Hk HK4.
    apply post_release; [|intros; simpl; congruence].
    intros kc' st5 Hkc' HK5. assert (kc' = kc) by congruence. subst.
    exists (Py.lower key), k. split; [done|]. split; [done|].
    rewrite HK5, HK4, HK3, HK2. set_solver.
Qed.

Lemma note_ledger_key_handled (tok : string) (k : KeyObj) :
  release_label cfg note key = Some tok ->
  Pynput.translateKey (KStr tok) = Ok k ->
  note_ledger_key cfg note = Some (ledger_key k).
Proof.
  intros Hl Hk. unfold note_ledger_key.
  by rewrite (gate_passes note Hgate), Hres, Htruthy, Hl, Hk.
Qed.

End ChordNote.

Lemma note_ledger_key_Some (cfg : Config) (note : Z) (x : string) :
  note_ledger_key cfg note = Some x ->
  exists (key tok : string) (k : KeyObj),
    -15 <= note - 36 <= 88
    /\ resolveKey cfg note = Some key
    /\ Py.truthy key = true
    /\ release_label cfg note key = Some tok
    /\ Pynput.translateKey (KStr tok) = Ok k
    /\ x = ledger_key k.
Proof.
  unfold note_ledger_key.
  destruct (negb _) eqn:Hg; [done|].
  destruct (resolveKey cfg note) as [key|]; [|done].
  destruct (Py.truthy key) eqn:Htr; [|done].
  destruct (release_label cfg note key) as [tok|] eqn:Hl; [|done].
  destruct (Pynput.translateKey (KStr tok)) as [k|] eqn:Hk; [|done].
  intros [= <-]. exists key, tok, k. repeat split; try done.
  - apply negb_false_iff, andb_prop in Hg as [H1 _]. by apply Z.leb_le.
  - apply negb_false_iff, andb_prop in Hg as [_ H2]. by apply Z.leb_le.
Qed.

Lemma chord_keys_cons (cfg : Config) (n : Z) (ns : list Z) :
  chord_keys cfg (n :: ns) = chord_keys cfg [n] ∪ chord_keys cfg ns.
Proof.
  unfold chord_keys. simpl.
  destruct (note_ledger_key cfg n); simpl; set_solver.
Qed.

Lemma note_on_step (cfg : Config) (n v : Z) (st st' : State) :
  parseMidi Pynput.press Pynput.release cfg (note_on n v) st = (Ok tt, st') ->
  ledger_keys st' ⊆ ledger_keys st ∪ chord_keys cfg [n].
Proof.
  intros Hon.
  destruct (v =? 0) eqn:Hv.
  { pose proof (parseMidi_note_off_releases_only cfg n v st)
      as (_ & _ & _ & Hsub & _).
    unfold parseMidi in Hon, Hsub. rewrite Hv in Hon, Hsub.
    rewrite Hon in Hsub. simpl in Hsub. set_solver. }
  unfold parseMidi in Hon. rewrite Hv in Hon.
  destruct (try_except_ledger
              (simulateKey Pynput.press Pynput.release cfg NoteOn n v) st)
    as [HK Hok].
  rewrite Hon in HK, Hok. simpl in HK, Hok. specialize (Hok eq_refl).
  rewrite HK.
  destruct (decide (-15 <= n - 36 <= 88)) as [Hgate|Hgate].
  2:{ rewrite simulateKey_dropped_ledger; [set_solver|by left]. }
  destruct (resolveKey cfg n) as [key|] eqn:Hres.
  2:{ rewrite simulateKey_dropped_ledger; [set_solver|by right; left]. }
  destruct (Py.truthy key) eqn:Htr.
  2:{ rewrite simulateKey_dropped_ledger; [set_solver|].
      right; right. by exists key. }
  pose proof (note_on_ledger_grows cfg n key Hgate Hres Htr v st) as Hpost.
  unfold post in Hpost.
  destruct (fst (simulateKey Pynput.press Pynput.release cfg NoteOn n v st))
    as [[]|e].
  - destruct Hpost as (tok & k & Hl & Hk & Hsub).
    unfold chord_keys. simpl.
    rewrite (note_ledger_key_handled cfg n key Hgate Hres Htr tok k Hl Hk).
    simpl. set_solver.
  - specialize (Hpost Hok). set_solver.
Qed.

Lemma note_off_step (cfg : Config) (n v : Z) (st : State) :
  ledger_keys
    (snd (parseMidi Pynput.press Pynput.release cfg (note_off n v) st))
  ⊆ ledger_keys st ∖ chord_keys cfg [n].
Proof.
  pose proof (parseMidi_note_off_releases_only cfg n v st)
    as (_ & _ & _ & Hsub & _).
  unfold chord_keys. simpl.
  destruct (note_ledger_key cfg n) as [x|] eqn:Hx; simpl; [|set_solver].
  apply note_ledger_key_Some in Hx
    as (key & tok & k & Hgate & Hres & Htr & Hl & Hk & ->).
  unfold parseMidi.
  destruct (try_except_ledger
              (if v =? 0
               then simulateKey Pynput.press Pynput.release cfg NoteOff n v
               else simulateKey Pynput.press Pynput.release cfg NoteOff n v)
              st) as [HK _].
  rewrite HK. clear HK.
  pose proof (note_off_ledger_handled cfg n key Hgate Hres Htr v st) as Hoff.
  unfold post in Hoff. specialize (Hoff tok k Hl Hk).
  destruct (v =? 0); rewrite Hoff; set_solver.
Qed.

Lemma note_ons_ledger (cfg : Config) (ons : list (Z * Z)) :
  forall st st' : State,
    stopEvent st = false -> closeThread st = false ->
    midiLoop Pynput.press Pynput.release cfg (map (uncurry note_on) ons) st
    = (Ok tt, st') ->
    ledger_keys st' ⊆ ledger_keys st ∪ chord_keys cfg (map fst ons)
    /\ stopEvent st' = false /\ closeThread st' = false.
Proof.
  induction ons as [|[n v] ons IH]; intros st st' Hs Hc Hrun.
  - simpl in Hrun. injection Hrun as <-. split; [set_solver|done].
  - change (map (uncurry note_on) ((n, v) :: ons))
      with (note_on n v :: map (uncurry note_on) ons) in Hrun.
    rewrite midiLoop_step, Hs, Hc in Hrun. simpl orb in Hrun.
    cbv iota in Hrun.
    pose proof (parseMidi_same_control cfg (note_on n v) st)
      as (Hs1 & Hc1 & _).
    destruct (parseMidi Pynput.press Pynput.release cfg (note_on n v) st)
      as [[[]|e] st1] eqn:Hon; [|done].
    simpl in Hs1, Hc1.
    destruct (IH st1 st') as (Hsub & Hs' & Hc'); [congruence..|done|].
    split; [|done].
    pose proof (note_on_step cfg n v st st1 Hon) as Hstep.
    change (map fst ((n, v) :: ons)) with (n :: map fst ons).
    rewrite chord_keys_cons. set_solver.
Qed.

Lemma note_offs_ledger (cfg : Config) (offs : list (Z * Z)) :
  forall st st' : State,
    stopEvent st = false -> closeThread st = false ->
    midiLoop Pynput.press Pynput.release cfg (map (uncurry note_off) offs) st
    = (Ok tt, st') ->
    ledger_keys st' ⊆ ledger_keys st ∖ chord_keys cfg (map fst offs).
Proof.
  induction offs as [|[n v] offs IH]; intros st st' Hs Hc Hrun.
  - simpl in Hrun. injection Hrun as <-. set_solver.
  - change (map (uncurry note_off) ((n, v) :: offs))
      with (note_off n v :: map (uncurry note_off) offs) in Hrun.
    rewrite midiLoop_step, Hs, Hc in Hrun. simpl orb in Hrun.
    cbv iota in Hrun.
    pose proof (parseMidi_same_control cfg (note_off n v) st)
      as (Hs1 & Hc1 & _).
    pose proof (note_off_step cfg n v st) as Hstep.
    destruct (parseMidi Pynput.press Pynput.release cfg (note_off n v) st)
      as [[[]|e] st1] eqn:Hoff; [|done].
    simpl in Hs1, Hc1, Hstep.
    pose proof (IH st1 st' ltac:(congruence) ltac:(congruence) Hrun) as Hsub.
    change (map fst ((n, v) :: offs)) with (n :: map fst offs).
    rewrite chord_keys_cons. set_solver.
Qed.

Lemma chord_keys_incl (cfg : Config) (ns ms : list Z) :
  incl ns ms -> chord_keys cfg ns ⊆ chord_keys cfg ms.
Proof.
  intros Hincl x. unfold chord_keys.
  rewrite !elem_of_list_to_set, !list_elem_of_omap.
  intros (n & Hn & Hx). exists n. split; [|done].
  apply list_elem_of_In, Hincl. by apply list_elem_of_In.
Qed.

(** X17: no key stays held after a chord.  From an empty ledger and a
    running session, any run of note_on messages followed by note_off
    messages that cover every note of the run, in any order and with any
    repetitions, leaves the ledger empty whenever the reader loop got
    through all of them without an exception; two notes that share a
    key, such as a symbol and its lower neighbour, are covered. *)
Theorem chord_round_trip
    (cfg : Config) (ons offs : list (Z * Z)) (st st' : State) :
  heldKeys st = [] ->
  stopEvent st = false ->
  closeThread st = false ->
  incl (map fst ons) (map fst offs) ->
  midiLoop Pynput.press Pynput.release cfg
    (map (uncurry note_on) ons ++ map (uncurry note_off) offs) st
  = (Ok tt, st') ->
  heldKeys st' = [].
Proof.
  intros Hempty Hs Hc Hincl Hrun.
  rewrite midiLoop_batches in Hrun.
  destruct (midiLoop Pynput.press Pynput.release cfg
              (map (uncurry note_on) ons) st) as [[[]|e] st1] eqn:Hons;
    [|done].
  destruct (note_ons_ledger cfg ons st st1 Hs Hc Hons) as (Hsub1 & Hs1 & Hc1).
  pose proof (note_offs_ledger cfg offs st1 st' Hs1 Hc1 Hrun) as Hsub2.
  pose proof (chord_keys_incl cfg _ _ Hincl) as Hkeys.
  apply ledger_keys_empty.
  assert (H0 : ledger_keys st = ∅) by (unfold ledger_keys; by rewrite Hempty).
  set_solver.
Qed.

Lemma chord_round_trip_witness :
  heldKeys
    (snd (midiLoop Pynput.press Pynput.release Examples.cfg_symbols
            (map (uncurry note_on) [(61, 100); (60, 100); (30, 80)]
             ++ map (uncurry note_off) [(30, 0); (61, 0); (60, 0)])
            initialState))
  = [].
Proof.
  apply (chord_round_trip Examples.cfg_symbols
           [(61, 100); (60, 100); (30, 80)] [(30, 0); (61, 0); (60, 0)]
           initialState).
  - reflexivity.
  - reflexivity.
  - reflexivity.
  - intros n Hn. simpl in *. tauto.
  - by vm_compute.
Defined.

(** X18: with velocity modifiers on, a note_on first taps the velocity
    key inside an alt bracket, then plays the note: when the classifier
    returns a modifier that pynput supports, the controller sees alt
    pressed, the velocity key pressed and released, alt released, and
    then the keystrokes of the note as with velocity modifiers off.  The
    bracket arms no timer. *)
Theorem note_on_keystrokes_with_velocity
    (cfg : Config) (note velocity : Z) (key tok velocityKey : string)
    (k kv : KeyObj) (st : State) :
  -15 <= note - 36 <= 88 ->
  resolveKey cfg note = Some key ->
  Py.truthy key = true ->
  velocity <> 0 ->
  cfgVelocity cfg = true ->
  Velocity.findVelocityKey (velocityMap cfg) velocity = Ok velocityKey ->
  Pynput.translateKey (KStr velocityKey) = Ok kv ->
  press_label cfg note key = Some tok ->
  Pynput.translateKey (KStr tok) = Ok k ->
  exists st' : State,
    parseMidi Pynput.press Pynput.release cfg (note_on note velocity) st
    = (Ok tt, st')
    /\ controller st'
       = (controller st
          ++ ([CPress (KKey "alt")] ++ press_calls kv ++ release_calls kv
              ++ [CRelease (KKey "alt")])
          ++ note_on_calls cfg note key k)%list
    /\ timerList st'
       = (timerList st ++ if customHoldLength cfg then [tok] else [])%list.
Proof.
  intros Hgate Hres Htr Hv Hvel Hfind Hkv Hlabel Hk.
  apply (parseMidi_note_on_keystrokes cfg note velocity key tok k
           ([CPress (KKey "alt")] ++ press_calls kv ++ release_calls kv
            ++ [CRelease (KKey "alt")])
           Hgate Hres Htr Hlabel Hk); [|done].
  intros st0. rewrite Hvel.
  apply post_bind. unfold post at 1, findVelocityKey, lift.
  simpl fst. simpl snd. rewrite Hfind.
  key_step. key_step. key_step. key_step.
  split; [done|]. chain. simpl.
  split; [by rewrite <- !app_assoc|done].
Qed.

Lemma note_on_keystrokes_with_velocity_witness :
  exists st' : State,
    parseMidi Pynput.press Pynput.release Examples.cfg_velocity
      (note_on 64 100) initialState
    = (Ok tt, st')
    /\ controller st'
       = (controller initialState
          ++ ([CPress (KKey "alt")] ++ press_calls (KStr "4")
              ++ release_calls (KStr "4") ++ [CRelease (KKey "alt")])
          ++ note_on_calls Examples.cfg_velocity 64 "T" (KStr "t"))%list
    /\ timerList st'
       = (timerList initialState
          ++ if customHoldLength Examples.cfg_velocity then ["t"] else [])%list.
Proof.
  apply (note_on_keystrokes_with_velocity Examples.cfg_velocity 64 100
           "T" "t" "4" (KStr "t") (KStr "4") initialState).
  - lia.
  - by vm_compute.
  - reflexivity.
  - lia.
  - reflexivity.
  - by vm_compute.
  - reflexivity.
  - by vm_compute.
  - reflexivity.
Defined.
